(** * A shallow embedding of the kernel supervisor (kernel/hilevel.c)

    The embedding follows the C source function by function.  The kernel's
    global variables are gathered in one record that is threaded through the
    handlers; the saved context [ctx_t *ctx] that every handler receives is
    passed and returned explicitly.  Behaviour that C leaves undefined (a
    NULL [executing], an index outside an array, a pipe that was freed, a
    block released twice, a copy between overlapping ranges, a
    floating-point value that does not fit an [int]) is the result [None]. *)

From Stdlib Require Import ZArith Lia Ascii String.
From Stdlib.Strings Require Import Byte.
From Stdlib Require Import DecimalString.
From stdpp Require Import base option numbers list fin vector gmap strings.

Local Open Scope Z_scope.

(** ** Constants of the absent header and of the linker script *)

(** [hilevel.h] and the linker script are not part of the sources at hand:
    the array sizes, the flag values and the linker symbols are parameters
    of the development. [BUFFER_SIZE] stands for [sizeof(p->buffer)]. *)
Class Platform := {
  MAX_PROCS : nat;
  MAX_FDS : nat;
  BUFFER_SIZE : nat;
  RDONLY : Z;
  WRONLY : Z;
  GIC_SOURCE_TIMER0 : Z;
  tos_console : Z;
  tos_p : Z;
  main_console : Z
}.

(** ** Machine integers *)

(** [uint32_t]: values are kept modulo 2^32. *)
Definition u32 (z : Z) : Z := z mod 2 ^ 32.

(** The conversion [(int)] of a 32-bit register value. *)
Definition s32 (z : Z) : Z :=
  if decide (u32 z < 2 ^ 31) then u32 z else u32 z - 2 ^ 32.

(** The conversion of a [double] that holds an integral value to [int];
    C defines it only when the value fits. *)
Definition d2i (x : Z) : option Z :=
  if decide (- 2 ^ 31 ≤ x < 2 ^ 31) then Some x else None.

(** An [int] used as an index into an array of [n] elements. *)
Fixpoint nat_index (n i : nat) : option (fin n) :=
  match n with
  | O => None
  | S n' => match i with
            | O => Some 0%fin
            | S i' => FS <$> nat_index n' i'
            end
  end.

Definition index (n : nat) (i : Z) : option (fin n) :=
  if decide (0 ≤ i) then nat_index n (Z.to_nat i) else None.

Definition fin_to_Z {n} (i : fin n) : Z := Z.of_nat (fin_to_nat i).

(** ** Loops *)

(** [for (i = 0; i < n; i++) body], the body running in the state [S] and
    possibly undefined. *)
Fixpoint fin_for {S : Type} (n : nat) : (fin n → S → option S) → S → option S :=
  match n with
  | O => λ _ s, Some s
  | S n' => λ body s, s' ← body 0%fin s; fin_for n' (λ i, body (FS i)) s'
  end.

(** [for (i = lo; i < lo + n; i++) if (P i v[i]) { found = i; break; }] *)
Fixpoint vfindi {A : Type} {n : nat} (P : nat → A → bool) (lo : nat)
    (v : vec A n) : option (fin n) :=
  match v with
  | vnil => None
  | vcons x v' => if P lo x then Some 0%fin else FS <$> vfindi P (S lo) v'
  end.

(** [for (i = lo; ...; i++) v[i] = f i v[i]] *)
Fixpoint vimap {A B : Type} {n : nat} (f : nat → A → B) (lo : nat)
    (v : vec A n) : vec B n :=
  match v with
  | vnil => vnil
  | vcons x v' => vcons (f lo x) (vimap f (S lo) v')
  end.

(** ** Data model *)

(** Modelled from the spec: the enumeration [status_t] of the absent header;
    its first enumerator is taken as the value of zeroed storage. *)
Inductive status_t :=
  | STATUS_INVALID
  | STATUS_READY
  | STATUS_EXECUTING
  | STATUS_TERMINATED.

Global Instance status_t_eq_dec : EqDecision status_t.
Proof. solve_decision. Defined.

(** Modelled from the spec: [ctx_t] of the absent header, the processor
    status word, the program counter, thirteen general-purpose registers,
    the stack pointer and the link register, each a [uint32_t]. *)
Record ctx_t := Ctx {
  cpsr : Z;
  pc : Z;
  gpr : vec Z 13;
  sp : Z;
  lr : Z
}.

Definition ctx_zero : ctx_t :=
  {| cpsr := 0; pc := 0; gpr := vreplicate 13 0; sp := 0; lr := 0 |}.

Definition gpr0 (c : ctx_t) : Z := gpr c !!! 0%fin.
Definition gpr1 (c : ctx_t) : Z := gpr c !!! 1%fin.
Definition gpr2 (c : ctx_t) : Z := gpr c !!! 2%fin.

(** [ctx->gpr[0] = v] *)
Definition set_gpr0 (v : Z) (c : ctx_t) : ctx_t :=
  {| cpsr := cpsr c; pc := pc c; gpr := vinsert 0%fin (u32 v) (gpr c);
     sp := sp c; lr := lr c |}.

Definition set_sp (v : Z) (c : ctx_t) : ctx_t :=
  {| cpsr := cpsr c; pc := pc c; gpr := gpr c; sp := u32 v; lr := lr c |}.

Definition set_pc (v : Z) (c : ctx_t) : ctx_t :=
  {| cpsr := cpsr c; pc := u32 v; gpr := gpr c; sp := sp c; lr := lr c |}.

Definition set_cpsr (v : Z) (c : ctx_t) : ctx_t :=
  {| cpsr := u32 v; pc := pc c; gpr := gpr c; sp := sp c; lr := lr c |}.

Section Kernel.
Context `{P : Platform}.

(** Modelled from the spec: [pcb_t] of the absent header. *)
Record pcb_t := Pcb {
  pid : Z;
  status : status_t;
  tos : Z;
  ctx : ctx_t;
  lastExec : Z;
  niceness : Z;
  fdTab : vec Z MAX_FDS
}.

(** [memset(&procTab[i], 0, sizeof(pcb_t))] *)
Definition pcb_zero : pcb_t :=
  {| pid := 0; status := STATUS_INVALID; tos := 0; ctx := ctx_zero;
     lastExec := 0; niceness := 0; fdTab := vreplicate MAX_FDS 0 |}.

Definition set_pid (v : Z) (p : pcb_t) : pcb_t :=
  {| pid := v; status := status p; tos := tos p; ctx := ctx p;
     lastExec := lastExec p; niceness := niceness p; fdTab := fdTab p |}.
Definition set_status (v : status_t) (p : pcb_t) : pcb_t :=
  {| pid := pid p; status := v; tos := tos p; ctx := ctx p;
     lastExec := lastExec p; niceness := niceness p; fdTab := fdTab p |}.
Definition set_tos (v : Z) (p : pcb_t) : pcb_t :=
  {| pid := pid p; status := status p; tos := u32 v; ctx := ctx p;
     lastExec := lastExec p; niceness := niceness p; fdTab := fdTab p |}.
Definition set_ctx (v : ctx_t) (p : pcb_t) : pcb_t :=
  {| pid := pid p; status := status p; tos := tos p; ctx := v;
     lastExec := lastExec p; niceness := niceness p; fdTab := fdTab p |}.
Definition set_lastExec (v : Z) (p : pcb_t) : pcb_t :=
  {| pid := pid p; status := status p; tos := tos p; ctx := ctx p;
     lastExec := u32 v; niceness := niceness p; fdTab := fdTab p |}.
Definition set_niceness (v : Z) (p : pcb_t) : pcb_t :=
  {| pid := pid p; status := status p; tos := tos p; ctx := ctx p;
     lastExec := lastExec p; niceness := v; fdTab := fdTab p |}.
Definition set_fdTab (v : vec Z MAX_FDS) (p : pcb_t) : pcb_t :=
  {| pid := pid p; status := status p; tos := tos p; ctx := ctx p;
     lastExec := lastExec p; niceness := niceness p; fdTab := v |}.

(** Modelled from the spec: [pipe_t] of the absent header, a circular queue
    of bytes. *)
Record pipe_t := Pipe {
  pipe_front : Z;
  pipe_rear : Z;
  pipe_size : Z;
  pipe_full : bool;
  pipe_buffer : vec byte BUFFER_SIZE
}.

(** A [pipe_t *]: [None] is the NULL pointer, [Some a] an address of the
    allocator. *)
Definition pipe_ptr := option positive.

(** Modelled from the spec: [fd_t] of the absent header, an entry of the
    open file table. *)
Record fd_t := Fd {
  file : pipe_ptr;
  flag : Z;
  refCount : Z
}.

Definition fd_zero : fd_t := {| file := None; flag := 0; refCount := 0 |}.

(** User memory, byte addressed. *)
Definition mem_t := Z → byte.

(** The kernel's global variables, the allocator's store of live pipes, the
    user memory and the characters sent to the UART so far. *)
Record kernel := Kernel {
  currentProcesses : Z;
  time : Z;
  procTab : vec pcb_t MAX_PROCS;
  openFileTab : vec fd_t MAX_FDS;
  executing : option (fin MAX_PROCS);
  heap : gmap positive pipe_t;
  mem : mem_t;
  uart : string
}.

Definition set_currentProcesses (v : Z) (k : kernel) : kernel :=
  {| currentProcesses := v; time := time k; procTab := procTab k;
     openFileTab := openFileTab k; executing := executing k; heap := heap k;
     mem := mem k; uart := uart k |}.
Definition set_time (v : Z) (k : kernel) : kernel :=
  {| currentProcesses := currentProcesses k; time := u32 v; procTab := procTab k;
     openFileTab := openFileTab k; executing := executing k; heap := heap k;
     mem := mem k; uart := uart k |}.
Definition set_procTab (v : vec pcb_t MAX_PROCS) (k : kernel) : kernel :=
  {| currentProcesses := currentProcesses k; time := time k; procTab := v;
     openFileTab := openFileTab k; executing := executing k; heap := heap k;
     mem := mem k; uart := uart k |}.
Definition set_openFileTab (v : vec fd_t MAX_FDS) (k : kernel) : kernel :=
  {| currentProcesses := currentProcesses k; time := time k; procTab := procTab k;
     openFileTab := v; executing := executing k; heap := heap k;
     mem := mem k; uart := uart k |}.
Definition set_executing (v : option (fin MAX_PROCS)) (k : kernel) : kernel :=
  {| currentProcesses := currentProcesses k; time := time k; procTab := procTab k;
     openFileTab := openFileTab k; executing := v; heap := heap k;
     mem := mem k; uart := uart k |}.
Definition set_heap (v : gmap positive pipe_t) (k : kernel) : kernel :=
  {| currentProcesses := currentProcesses k; time := time k; procTab := procTab k;
     openFileTab := openFileTab k; executing := executing k; heap := v;
     mem := mem k; uart := uart k |}.
Definition set_mem (v : mem_t) (k : kernel) : kernel :=
  {| currentProcesses := currentProcesses k; time := time k; procTab := procTab k;
     openFileTab := openFileTab k; executing := executing k; heap := heap k;
     mem := v; uart := uart k |}.
Definition set_uart (v : string) (k : kernel) : kernel :=
  {| currentProcesses := currentProcesses k; time := time k; procTab := procTab k;
     openFileTab := openFileTab k; executing := executing k; heap := heap k;
     mem := mem k; uart := v |}.

(** [procTab[i].field = ...] *)
Definition upd_pcb (i : fin MAX_PROCS) (f : pcb_t → pcb_t) (k : kernel) : kernel :=
  set_procTab (vinsert i (f (procTab k !!! i)) (procTab k)) k.

(** [openFileTab[i].field = ...] *)
Definition upd_fd (i : fin MAX_FDS) (f : fd_t → fd_t) (k : kernel) : kernel :=
  set_openFileTab (vinsert i (f (openFileTab k !!! i)) (openFileTab k)) k.

(** The state in which the boot code enters the reset handler: the globals
    hold their initialisers, the arrays are zeroed, nothing is allocated and
    nothing was printed. *)
Definition boot (m : mem_t) : kernel :=
  {| currentProcesses := 0; time := 0;
     procTab := vreplicate MAX_PROCS pcb_zero;
     openFileTab := vreplicate MAX_FDS fd_zero;
     executing := None; heap := ∅; mem := m; uart := "" |}.

(** ** The UART *)

(** [PL011_putc(UART0, x, true)] *)
Definition PL011_putc (x : ascii) (k : kernel) : kernel :=
  set_uart (uart k +:+ String x EmptyString) k.

(** The conversion of an [int] to the [uint8_t] that the UART takes. *)
Definition char_of_int (z : Z) : ascii := ascii_of_N (Z.to_N (z mod 256)).

(** [print(x, n)] for a string literal [x] of at least [n] characters. *)
Definition print (x : string) (n : Z) (k : kernel) : kernel :=
  foldl (λ k a, PL011_putc a k) k (take (Z.to_nat n) (list_ascii_of_string x)).

Definition newline : string := String "010" EmptyString.

Definition printPID (pid : Z) (k : kernel) : kernel :=
  let units := Z.rem pid 10 in
  let k :=
    if decide (10 ≤ pid) then
      let tens := Z.quot (pid - units) 10 in
      PL011_putc (char_of_int (48 + tens)) k
    else k in
  PL011_putc (char_of_int (48 + units)) k.

(** ** Context switch *)

(** [prev] and [next] point into [procTab] or are NULL. *)
Definition dispatch (c : ctx_t) (prev next : option (fin MAX_PROCS))
    (k : kernel) : ctx_t * kernel :=
  let k := PL011_putc "[" k in
  let k :=
    match prev with
    | Some p =>
        let k := upd_pcb p (set_ctx c) k in
        printPID (pid (procTab k !!! p)) k
    | None => PL011_putc "?" k
    end in
  let k := PL011_putc "-" k in
  let k := PL011_putc ">" k in
  let '(c, k) :=
    match next with
    | Some n => (ctx (procTab k !!! n), printPID (pid (procTab k !!! n)) k)
    | None => (c, PL011_putc "?" k)
    end in
  let k := PL011_putc "]" k in
  (c, set_executing next k).

(** ** Scheduler *)

(** [(time - procTab[i].lastExec) - procTab[i].niceness]: [time] is a
    [uint32_t], so both subtractions are carried out on unsigned 32-bit
    values ([lastExec] and [niceness] being integers of at most that width);
    the result is then held exactly by the [double ipriority]. *)
Definition aging_score (t : Z) (p : pcb_t) : Z :=
  u32 (u32 (t - lastExec p) - niceness p).

(** The body of the loop of [schedule], on the pair
    [(highestPriority, nextIndex)]. *)
Definition schedule_step (k : kernel) (i : fin MAX_PROCS) (acc : Z * Z)
    : option (Z * Z) :=
  let '(highestPriority, nextIndex) := acc in
  if decide (status (procTab k !!! i) = STATUS_READY) then
    let ipriority := aging_score (time k) (procTab k !!! i) in
    if decide (highestPriority ≤ ipriority) then
      highestPriority ← d2i ipriority;
      Some (highestPriority, fin_to_Z i)
    else Some (highestPriority, nextIndex)
  else Some (highestPriority, nextIndex).

Definition schedule_select (k : kernel) (e : fin MAX_PROCS) : option (Z * Z) :=
  let nextIndex := pid (procTab k !!! e) in
  let highestPriority := niceness (procTab k !!! e) - 1 in
  fin_for MAX_PROCS (schedule_step k) (highestPriority, nextIndex).

Definition schedule (c : ctx_t) (k : kernel) : option (ctx_t * kernel) :=
  e ← executing k;
  let prevIndex := pid (procTab k !!! e) in
  '(_, nextIndex) ← schedule_select k e;
  next ← index MAX_PROCS nextIndex;
  let '(c, k) := dispatch c (executing k) (Some next) k in
  prev ← index MAX_PROCS prevIndex;
  let k := upd_pcb prev (set_lastExec (time k)) k in
  let k :=
    if decide (status (procTab k !!! prev) = STATUS_EXECUTING)
    then upd_pcb prev (set_status STATUS_READY) k else k in
  let k := upd_pcb next (set_status STATUS_EXECUTING) k in
  let k := set_time (time k + 1) k in
  Some (c, k).

(** ** Reset and interrupt handlers *)

(** The writes to the timer and to the interrupt controller have no effect
    on the state modelled here. *)
Definition hilevel_handler_rst (c : ctx_t) (k : kernel) : option (ctx_t * kernel) :=
  let k := PL011_putc "R" k in
  let k := set_procTab (vmap (set_status STATUS_INVALID) (procTab k)) k in
  let k :=
    set_openFileTab
      (vimap (λ i f,
         if decide (i < 3)%nat then
           {| file := file f;
              flag := if decide (i = 0%nat) then RDONLY else WRONLY;
              refCount := 1 |}
         else {| file := file f; flag := flag f; refCount := 0 |})
       0 (openFileTab k)) k in
  p0 ← index MAX_PROCS 0;
  let k := upd_pcb p0 (λ _, pcb_zero) k in
  let k := upd_pcb p0 (set_pid 0) k in
  let k := upd_pcb p0 (set_status STATUS_READY) k in
  let k := upd_pcb p0 (set_tos tos_console) k in
  let k := upd_pcb p0 (λ p, set_ctx (set_cpsr 80 (ctx p)) p) k in
  let k := upd_pcb p0 (λ p, set_ctx (set_pc main_console (ctx p)) p) k in
  let k := upd_pcb p0 (λ p, set_ctx (set_sp (tos p) (ctx p)) p) k in
  let k := upd_pcb p0 (set_lastExec (time k)) k in
  let k := upd_pcb p0 (set_niceness 0) k in
  let k := upd_pcb p0 (λ p, set_fdTab (vmap (λ _, -1) (fdTab p)) p) k in
  let k := set_currentProcesses (currentProcesses k + 1) k in
  Some (dispatch c None (Some p0) k).

(** [id] is the value read from the interrupt controller. *)
Definition hilevel_handler_irq (id : Z) (c : ctx_t) (k : kernel)
    : option (ctx_t * kernel) :=
  if decide (id = GIC_SOURCE_TIMER0) then schedule c k else Some (c, k).

(** ** File descriptors *)

Definition open_fd (p : pipe_ptr) (flg : Z) (k : kernel) : option (Z * kernel) :=
  match vfindi (λ i f, bool_decide (3 ≤ i)%nat && bool_decide (refCount f = 0))
               0 (openFileTab k) with
  | None => Some (-1, k)
  | Some fd =>
      let k := upd_fd fd (λ f, {| file := p; flag := flag f; refCount := refCount f |}) k in
      let k := upd_fd fd (λ f, {| file := file f; flag := flg; refCount := refCount f |}) k in
      let k := upd_fd fd (λ f, {| file := file f; flag := flag f; refCount := refCount f + 1 |}) k in
      e ← executing k;
      let k :=
        match vfindi (λ _ v, bool_decide (v < 0)) 0 (fdTab (procTab k !!! e)) with
        | Some j =>
            upd_pcb e (λ pcb, set_fdTab (vinsert j (fin_to_Z fd) (fdTab pcb)) pcb) k
        | None => k
        end in
      Some (fin_to_Z fd, k)
  end.

(** [free(p)]: NULL is ignored and a live pipe leaves the store; releasing
    an address that is not live (a block released before) is undefined. *)
Definition free (p : pipe_ptr) (k : kernel) : option kernel :=
  match p with
  | None => Some k
  | Some a =>
      if heap k !! a is Some _ then Some (set_heap (delete a (heap k)) k)
      else None
  end.

Definition close_fd (fd : Z) (pid : Z) (k : kernel) : option (Z * kernel) :=
  if decide (0 ≤ fd ∧ fd < Z.of_nat MAX_FDS) then
    i ← index MAX_FDS fd;
    t ← index MAX_PROCS pid;
    let k :=
      upd_pcb t (λ pcb,
        set_fdTab (vmap (λ v, if decide (v = fd) then -1 else v) (fdTab pcb)) pcb) k in
    let k := upd_fd i (λ f, {| file := file f; flag := flag f; refCount := refCount f - 1 |}) k in
    k ← (if decide (refCount (openFileTab k !!! i) ≤ 0)
         then free (file (openFileTab k !!! i)) k else Some k);
    Some (0, k)
  else Some (-1, k).

(** ** User memory *)

Definition byte_of_Z (z : Z) : byte :=
  default x00 (Byte.of_N (Z.to_N (z mod 256))).

Definition Z_of_byte (b : byte) : Z := Z.of_N (Byte.to_N b).

(** [*(char * )a = b] *)
Definition store (m : mem_t) (a : Z) (b : byte) : mem_t :=
  λ a', if a' =? a then b else m a'.

(** [memcpy(dst, src, n)] on user memory, [n] being a [size_t]: C gives the
    call a meaning only when neither range runs past the end of the 32-bit
    address space and the two ranges do not overlap; a copy of no bytes
    between addresses of that space changes nothing. *)
Definition copy_ok (dst src n : Z) : Prop :=
  dst + n ≤ 2 ^ 32 ∧ src + n ≤ 2 ^ 32
  ∧ (n = 0 ∨ dst + n ≤ src ∨ src + n ≤ dst).

Global Instance copy_ok_dec dst src n : Decision (copy_ok dst src n).
Proof. unfold copy_ok. apply _. Defined.

Definition memcpy (m : mem_t) (dst src n : Z) : option mem_t :=
  if decide (copy_ok dst src n)
  then Some (λ a, if (dst <=? a) && (a <? dst + n) then m (src + (a - dst))
                  else m a)
  else None.

(** An [int] in memory: four bytes, least significant first. *)
Definition store_int (m : mem_t) (a : Z) (v : Z) : mem_t :=
  let m := store m a (byte_of_Z v) in
  let m := store m (a + 1) (byte_of_Z (v ≫ 8)) in
  let m := store m (a + 2) (byte_of_Z (v ≫ 16)) in
  store m (a + 3) (byte_of_Z (v ≫ 24)).

Definition load_int (m : mem_t) (a : Z) : Z :=
  s32 (Z_of_byte (m a) + Z_of_byte (m (a + 1)) ≪ 8
       + Z_of_byte (m (a + 2)) ≪ 16 + Z_of_byte (m (a + 3)) ≪ 24).

(** ** Pipes *)

(** [malloc(sizeof(pipe_t))] followed by the four assignments of [pipe]:
    the allocator hands out an address that is not live; the bytes of the
    new buffer are indeterminate in C and zero here. *)
Definition new_pipe : pipe_t :=
  {| pipe_front := 0; pipe_rear := -1; pipe_size := Z.of_nat BUFFER_SIZE;
     pipe_full := false; pipe_buffer := vreplicate BUFFER_SIZE x00 |}.

Definition malloc (k : kernel) : positive * kernel :=
  let a := fresh (dom (heap k)) in
  (a, set_heap (<[a := new_pipe]> (heap k)) k).

(** The loop of [write] on a pipe: [todo] iterations remain, [x] is the
    user pointer and [i] the counter. *)
Fixpoint write_loop (m : mem_t) (todo : nat) (x : Z) (i : Z) (p : pipe_t)
    : option (Z * pipe_t) :=
  match todo with
  | O => Some (i, p)
  | S todo' =>
      if pipe_full p then Some (i, p)
      else
        let rear := Z.rem (pipe_rear p + 1) (pipe_size p) in
        r ← index BUFFER_SIZE rear;
        let p := {| pipe_front := pipe_front p; pipe_rear := rear;
                    pipe_size := pipe_size p; pipe_full := pipe_full p;
                    pipe_buffer := vinsert r (m x) (pipe_buffer p) |} in
        let p :=
          if decide (pipe_front p = Z.rem (pipe_rear p + 1) (pipe_size p))
          then {| pipe_front := pipe_front p; pipe_rear := pipe_rear p;
                  pipe_size := pipe_size p; pipe_full := true;
                  pipe_buffer := pipe_buffer p |}
          else p in
        write_loop m todo' (x + 1) (i + 1) p
  end.

(** The loop of [read] on a pipe. *)
Fixpoint read_loop (todo : nat) (x : Z) (i : Z) (m : mem_t) (p : pipe_t)
    : option (Z * mem_t * pipe_t) :=
  match todo with
  | O => Some (i, m, p)
  | S todo' =>
      let front := pipe_front p in
      if bool_decide (front = Z.rem (pipe_rear p + 1) (pipe_size p))
         && negb (pipe_full p)
      then Some (i, m, p)
      else
        f ← index BUFFER_SIZE front;
        let m := store m (x + i) (pipe_buffer p !!! f) in
        let p := {| pipe_front := Z.rem (front + 1) (pipe_size p);
                    pipe_rear := pipe_rear p; pipe_size := pipe_size p;
                    pipe_full := pipe_full p; pipe_buffer := pipe_buffer p |} in
        let p :=
          if pipe_full p
          then {| pipe_front := pipe_front p; pipe_rear := pipe_rear p;
                  pipe_size := pipe_size p; pipe_full := false;
                  pipe_buffer := pipe_buffer p |}
          else p in
        read_loop todo' x (i + 1) m p
  end.

(** [pipe_t *pipe = openFileTab[fd].file], dereferenced. *)
Definition pipe_of_fd (fd : Z) (k : kernel) : option (positive * pipe_t) :=
  i ← index MAX_FDS fd;
  a ← file (openFileTab k !!! i);
  p ← heap k !! a;
  Some (a, p).

(** ** Supervisor calls *)

(** [for (int i = 0; i < n; i++) PL011_putc(UART0, *x++, true)] *)
Fixpoint put_bytes (m : mem_t) (todo : nat) (x : Z) (k : kernel) : kernel :=
  match todo with
  | O => k
  | S todo' => put_bytes m todo' (x + 1) (PL011_putc (ascii_of_byte (m x)) k)
  end.

Definition svc_write (c : ctx_t) (k : kernel) : option (ctx_t * kernel) :=
  let fd := s32 (gpr0 c) in
  let x := gpr1 c in
  let n := s32 (gpr2 c) in
  if decide (fd < 0) then
    let k := print (newline +:+ "ERR: cannot address negative fd") 32 k in
    Some (set_gpr0 (-1) c, k)
  else if decide (fd = 0) then Some (set_gpr0 0 c, k)
  else if decide (fd = 1) then
    Some (set_gpr0 n c, put_bytes (mem k) (Z.to_nat n) x k)
  else if decide (fd = 2) then
    let k := print (newline +:+ "write error") 12 k in
    Some (set_gpr0 (-1) c, k)
  else
    '(a, pipe) ← pipe_of_fd fd k;
    '(i, pipe) ← write_loop (mem k) (Z.to_nat n) x 0 pipe;
    Some (set_gpr0 i c, set_heap (<[a := pipe]> (heap k)) k).

Definition svc_read (c : ctx_t) (k : kernel) : option (ctx_t * kernel) :=
  let fd := s32 (gpr0 c) in
  let x := gpr1 c in
  let n := s32 (gpr2 c) in
  if decide (fd < 0) then
    let k := print (newline +:+ "ERR: cannot address negative fd") 32 k in
    Some (set_gpr0 (-1) c, k)
  else if decide (fd = 0) then
    Some (set_gpr0 0 c, print (newline +:+ "read stdin") 11 k)
  else if decide (fd = 1) then
    Some (set_gpr0 0 c, print (newline +:+ "read stdout") 12 k)
  else if decide (fd = 2) then
    Some (set_gpr0 (-1) c, print (newline +:+ "read error") 11 k)
  else
    '(a, pipe) ← pipe_of_fd fd k;
    '(i, m, pipe) ← read_loop (Z.to_nat n) x 0 (mem k) pipe;
    Some (set_gpr0 i c, set_mem m (set_heap (<[a := pipe]> (heap k)) k)).

(** The search of [fork] for a terminated entry, from index 1. *)
Definition find_terminated (k : kernel) : option (fin MAX_PROCS) :=
  vfindi (λ i p, bool_decide (1 ≤ i)%nat && bool_decide (status p = STATUS_TERMINATED))
         0 (procTab k).

(** The body of the loop of [fork] that copies the descriptors of the
    parent into [procTab[iNew]]. *)
Definition fork_fd_step (n : fin MAX_PROCS) (i : fin MAX_FDS) (k : kernel)
    : option kernel :=
  e ← executing k;
  let fd := fdTab (procTab k !!! e) !!! i in
  let k := upd_pcb n (λ p, set_fdTab (vinsert i fd (fdTab p)) p) k in
  if decide (0 ≤ fd) then
    j ← index MAX_FDS fd;
    Some (upd_fd j (λ f, {| file := file f; flag := flag f; refCount := refCount f + 1 |}) k)
  else Some k.

Definition svc_fork (c : ctx_t) (k : kernel) : option (ctx_t * kernel) :=
  let k := PL011_putc "F" k in
  if decide (Z.of_nat MAX_PROCS ≤ currentProcesses k) then
    let k := print (newline +:+ "ERR: process table full") 24 k in
    Some (set_gpr0 (-1) c, k)
  else
    let iNew := currentProcesses k in
    let k := set_currentProcesses (currentProcesses k + 1) k in
    let iNew := match find_terminated k with
                | Some i => fin_to_Z i
                | None => iNew
                end in
    n ← index MAX_PROCS iNew;
    let k := upd_pcb n (λ _, pcb_zero) k in
    let k := upd_pcb n (set_pid iNew) k in
    let k := upd_pcb n (set_status STATUS_READY) k in
    let k := upd_pcb n (set_tos (tos_p - (iNew - 1) * 8192)) k in
    let k := upd_pcb n (set_ctx c) k in
    e ← executing k;
    let stackHeight := u32 (tos (procTab k !!! e) - sp (ctx (procTab k !!! e))) in
    let k := upd_pcb n (λ p, set_ctx (set_sp (tos p - stackHeight) (ctx p)) p) k in
    m ← memcpy (mem k) (sp (ctx (procTab k !!! n))) (sp c) stackHeight;
    let k := set_mem m k in
    let k := upd_pcb n (set_lastExec (time k)) k in
    let k := upd_pcb n (set_niceness (niceness (procTab k !!! e))) k in
    k ← fin_for MAX_FDS (fork_fd_step n) k;
    let c := set_gpr0 (pid (procTab k !!! n)) c in
    let k := upd_pcb n (λ p, set_ctx (set_gpr0 0 (ctx p)) p) k in
    Some (c, k).

(** The body of the loops of [exit] and [kill] that close the descriptors of
    [procTab[pid]]. *)
Definition close_step (pid : Z) (i : fin MAX_FDS) (k : kernel) : option kernel :=
  t ← index MAX_PROCS pid;
  let fd := fdTab (procTab k !!! t) !!! i in
  if decide (0 ≤ fd) then snd <$> close_fd fd pid k else Some k.

Definition exit_step (i : fin MAX_FDS) (k : kernel) : option kernel :=
  e ← executing k;
  let fd := fdTab (procTab k !!! e) !!! i in
  let pid := pid (procTab k !!! e) in
  if decide (0 ≤ fd) then snd <$> close_fd fd pid k else Some k.

Definition svc_exit (c : ctx_t) (k : kernel) : option (ctx_t * kernel) :=
  let k := PL011_putc "X" k in
  k ← fin_for MAX_FDS exit_step k;
  e ← executing k;
  let k := upd_pcb e (set_status STATUS_TERMINATED) k in
  let k := set_currentProcesses (currentProcesses k - 1) k in
  schedule c k.

Definition svc_exec (c : ctx_t) (k : kernel) : option (ctx_t * kernel) :=
  let k := PL011_putc "E" k in
  let c := set_pc (gpr0 c) c in
  e ← executing k;
  let c := set_sp (tos (procTab k !!! e)) c in
  Some (c, k).

Definition svc_kill (c : ctx_t) (k : kernel) : option (ctx_t * kernel) :=
  let k := PL011_putc "K" k in
  let pid := s32 (gpr0 c) in
  k ← fin_for MAX_FDS (close_step pid) k;
  t ← index MAX_PROCS pid;
  let k := upd_pcb t (set_status STATUS_TERMINATED) k in
  let k := set_currentProcesses (currentProcesses k - 1) k in
  Some (set_gpr0 0 c, k).

Definition svc_nice (c : ctx_t) (k : kernel) : option (ctx_t * kernel) :=
  let k := PL011_putc "N" k in
  let pid := s32 (gpr0 c) in
  let x := s32 (gpr1 c) in
  let x := if decide (x < -19) then -19 else if decide (20 < x) then 20 else x in
  t ← index MAX_PROCS pid;
  let k := upd_pcb t (set_niceness x) k in
  Some (set_gpr0 x c, k).

Definition svc_pipe (c : ctx_t) (k : kernel) : option (ctx_t * kernel) :=
  let pipedes := gpr0 c in
  let '(a, k) := malloc k in
  '(fd_read, k) ← open_fd (Some a) RDONLY k;
  '(fd_write, k) ← open_fd (Some a) WRONLY k;
  if decide (fd_read = -1 ∨ fd_write = -1) then
    let k := print (newline +:+ "pipe failed") 12 k in
    e ← executing k;
    let pid := pid (procTab k !!! e) in
    k ← (if decide (0 ≤ fd_read) then snd <$> close_fd fd_read pid k else Some k);
    k ← (if decide (0 ≤ fd_write) then snd <$> close_fd fd_write pid k else Some k);
    Some (set_gpr0 (-1) c, k)
  else
    let m := store_int (store_int (mem k) pipedes fd_read) (pipedes + 4) fd_write in
    Some (set_gpr0 0 c, set_mem m k).

Definition svc_close (c : ctx_t) (k : kernel) : option (ctx_t * kernel) :=
  let fd := s32 (gpr0 c) in
  e ← executing k;
  let pid := pid (procTab k !!! e) in
  '(r, k) ← close_fd fd pid k;
  Some (set_gpr0 r c, k).

Definition hilevel_handler_svc (c : ctx_t) (id : Z) (k : kernel)
    : option (ctx_t * kernel) :=
  match id with
  | 0 => schedule c k
  | 1 => svc_write c k
  | 2 => svc_read c k
  | 3 => svc_fork c k
  | 4 => svc_exit c k
  | 5 => svc_exec c k
  | 6 => svc_kill c k
  | 7 => svc_nice c k
  | 8 => svc_pipe c k
  | 9 => svc_close c k
  | _ => Some (c, k)
  end.

End Kernel.

(** ** A small platform for concrete runs *)

Definition demo : Platform :=
  {| MAX_PROCS := 4; MAX_FDS := 8; BUFFER_SIZE := 4; RDONLY := 0; WRONLY := 1;
     GIC_SOURCE_TIMER0 := 36; tos_console := 0x70100000; tos_p := 0x70200000;
     main_console := 0x70010000 |}.

Definition zero_mem : mem_t := λ _, x00.

(** Entries of the demo process table. *)
Definition demo_slot0 : fin (@MAX_PROCS demo) := 0%fin.
Definition demo_slot1 : fin (@MAX_PROCS demo) := 1%fin.
Definition demo_slot2 : fin (@MAX_PROCS demo) := 2%fin.

(** The state after a trap of a concrete run; the default is never used,
    the runs below being defined. *)
Definition after (t : option (ctx_t * @kernel demo)) : ctx_t * @kernel demo :=
  default (ctx_zero, boot zero_mem) t.

(** What a function of the context and the kernel state sees after a
    trap. *)
Definition observe `{P : Platform} {A : Type} (f : ctx_t → kernel → A)
    (t : option (ctx_t * kernel)) : option A :=
  '(c, k) ← t; Some (f c k).

(** The user code stores arguments in [r0], [r1] and [r2] before a trap. *)
Definition with_args (a0 a1 a2 : Z) (c : ctx_t) : ctx_t :=
  {| cpsr := cpsr c; pc := pc c;
     gpr := vinsert 0%fin (u32 a0) (vinsert 1%fin (u32 a1) (vinsert 2%fin (u32 a2) (gpr c)));
     sp := sp c; lr := lr c |}.

(** The demo platform after reset. *)
Definition demo_reset : option (ctx_t * @kernel demo) :=
  hilevel_handler_rst ctx_zero (boot zero_mem).

Definition demo_booted : ctx_t * @kernel demo := after demo_reset.

(** Three forks after reset fill the process table of the demo platform. *)
Definition demo_two : ctx_t * @kernel demo :=
  after (hilevel_handler_svc (fst demo_booted) 3 (snd demo_booted)).

Definition demo_three : ctx_t * @kernel demo :=
  after (hilevel_handler_svc (fst demo_two) 3 (snd demo_two)).

Definition demo_full : ctx_t * @kernel demo :=
  after (hilevel_handler_svc (fst demo_three) 3 (snd demo_three)).

Definition demo_slot3 : fin (@MAX_PROCS demo) := 3%fin.

(** The demo platform after reset and a call of [pipe] whose result goes
    to the user address 1000. *)
Definition demo_piped : ctx_t * @kernel demo :=
  after (hilevel_handler_svc (with_args 1000 0 0 (fst demo_booted)) 8
           (snd demo_booted)).

Definition demo_fd3 : fin (@MAX_FDS demo) := 3%fin.
Definition demo_fd4 : fin (@MAX_FDS demo) := 4%fin.

(** The user code closes the descriptor [fd] [n] times in a row, loading
    it into [r0] before each call. *)
Fixpoint close_repeatedly `{P : Platform} (fd : Z) (n : nat) (c : ctx_t)
    (k : kernel) : option (ctx_t * kernel) :=
  match n with
  | O => Some (c, k)
  | S n' =>
      '(c', k') ← hilevel_handler_svc (set_gpr0 fd c) 9 k;
      close_repeatedly fd n' c' k'
  end.

(** Closing the entry [i] in state [k] releases nothing, NULL or a live
    pipe: when its count is to reach zero or less, its pointer does not
    designate a pipe that was released already. *)
Definition releasable `{P : Platform} (k : kernel) (i : fin MAX_FDS) : Prop :=
  refCount (openFileTab k !!! i) ≤ 1 →
  ∀ a, file (openFileTab k !!! i) = Some a → is_Some (heap k !! a).

(** The store once the entry [i] of state [k] was closed. *)
Definition heap_closed `{P : Platform} (k : kernel) (i : fin MAX_FDS)
    : gmap positive pipe_t :=
  if decide (refCount (openFileTab k !!! i) ≤ 1) then
    match file (openFileTab k !!! i) with
    | Some a => delete a (heap k)
    | None => heap k
    end
  else heap k.

(** ** Frames *)

(** From [k] to [k'] nothing but the UART output changed. *)
Definition only_output `{P : Platform} (k k' : kernel) : Prop :=
  currentProcesses k' = currentProcesses k
  ∧ time k' = time k
  ∧ procTab k' = procTab k
  ∧ openFileTab k' = openFileTab k
  ∧ executing k' = executing k
  ∧ heap k' = heap k
  ∧ mem k' = mem k.

(** ** Calls that leave the processes alone *)

(** From [k] to [k'] the process counter, the executing process, the time
    and, in every entry, the pid, the status, the stack, the saved context
    and the time stamp are the same. *)
Definition same_processes `{P : Platform} (k k' : kernel) : Prop :=
  currentProcesses k' = currentProcesses k
  ∧ executing k' = executing k
  ∧ time k' = time k
  ∧ ∀ j, pid (procTab k' !!! j) = pid (procTab k !!! j)
       ∧ status (procTab k' !!! j) = status (procTab k !!! j)
       ∧ tos (procTab k' !!! j) = tos (procTab k !!! j)
       ∧ ctx (procTab k' !!! j) = ctx (procTab k !!! j)
       ∧ lastExec (procTab k' !!! j) = lastExec (procTab k !!! j).

(** ** The loop of [kill] *)

(** [v] is among the first [n] descriptor slots [orig] of the target. *)
Definition seen `{P : Platform} (orig : vec Z MAX_FDS) (n : nat) (v : Z) : Prop :=
  ∃ m : fin MAX_FDS, (fin_to_nat m < n)%nat ∧ orig !!! m = v.

Global Instance seen_dec `{P : Platform} (orig : vec Z MAX_FDS) n v :
  Decision (seen orig n v).
Proof. unfold seen. apply _. Defined.

(** What the first [n] iterations of the loop of [kill] leave in a slot that
    held [v]: a descriptor within range is reset once it was come across. *)
Definition wiped `{P : Platform} (orig : vec Z MAX_FDS) (n : nat) (v : Z) : Z :=
  if decide ((0 ≤ v < Z.of_nat MAX_FDS) ∧ seen orig n v) then -1 else v.

(** Entry [j] of the open file table is closed within the first [n]
    iterations of the loop and its count, at most 1 before, reaches zero
    or less: its pipe is released. *)
Definition dropped `{P : Platform} (k0 : kernel) (orig : vec Z MAX_FDS) (n : nat)
    (j : fin MAX_FDS) : Prop :=
  seen orig n (fin_to_Z j) ∧ refCount (openFileTab k0 !!! j) ≤ 1.

(** The pipe at [a] is released within the first [n] iterations. *)
Definition released `{P : Platform} (k0 : kernel) (orig : vec Z MAX_FDS) (n : nat)
    (a : positive) : Prop :=
  ∃ j, dropped k0 orig n j ∧ file (openFileTab k0 !!! j) = Some a.

Global Instance released_dec `{P : Platform} (k0 : kernel) orig n a :
  Decision (released k0 orig n a).
Proof. unfold released, dropped. apply _. Defined.

(** Every pipe that the loop releases is live, and no two of the entries
    whose pipe it releases share their pipe: nothing is released that was
    released before. *)
Definition release_once `{P : Platform} (k0 : kernel) (orig : vec Z MAX_FDS)
    : Prop :=
  ∀ j a, dropped k0 orig MAX_FDS j → file (openFileTab k0 !!! j) = Some a →
    is_Some (heap k0 !! a)
    ∧ ∀ j', dropped k0 orig MAX_FDS j' →
            file (openFileTab k0 !!! j') = Some a → j' = j.

(** The state [k1] after [n] iterations of the loop of [kill] on the target
    [t], started in [k0]. *)
Definition kill_inv `{P : Platform} (k0 : kernel) (t : fin MAX_PROCS) (n : nat)
    (k1 : kernel) : Prop :=
  let orig := fdTab (procTab k0 !!! t) in
  executing k1 = executing k0
  ∧ time k1 = time k0
  ∧ mem k1 = mem k0
  ∧ uart k1 = uart k0
  ∧ currentProcesses k1 = currentProcesses k0
  ∧ procTab k1 =
      vinsert t (set_fdTab (vmap (wiped orig n) orig) (procTab k0 !!! t))
        (procTab k0)
  ∧ (∀ j, file (openFileTab k1 !!! j) = file (openFileTab k0 !!! j)
        ∧ flag (openFileTab k1 !!! j) = flag (openFileTab k0 !!! j)
        ∧ refCount (openFileTab k1 !!! j)
          = refCount (openFileTab k0 !!! j)
            - (if decide (seen orig n (fin_to_Z j)) then 1 else 0))
  ∧ (∀ a, heap k1 !! a
          = if decide (released k0 orig n a) then None else heap k0 !! a).

(** ** Runs with a shared pipe *)

(** The demo platform after reset, [pipe] and a fork: the console and its
    child both hold the descriptors 3 and 4 of one pipe. *)
Definition demo_shared : ctx_t * @kernel demo :=
  after (hilevel_handler_svc (fst demo_piped) 3 (snd demo_piped)).

(** Then the console closes its read end: the child alone holds
    descriptor 3. *)
Definition demo_half : ctx_t * @kernel demo :=
  after (hilevel_handler_svc (with_args 3 0 0 (fst demo_shared)) 9
           (snd demo_shared)).

(** The demo platform after reset, a fork and a yield, which dispatches
    the child. *)
Definition demo_child : ctx_t * @kernel demo :=
  after (hilevel_handler_svc (fst demo_two) 0 (snd demo_two)).

(** Then the child kills itself. *)
Definition demo_zombie : ctx_t * @kernel demo :=
  after (hilevel_handler_svc (with_args 1 0 0 (fst demo_child)) 6
           (snd demo_child)).

Global Instance dropped_dec `{P : Platform} (k0 : kernel) orig n j :
  Decision (dropped k0 orig n j).
Proof. unfold dropped. apply _. Defined.

(** ** Runs without a scheduling call *)

(** [k'] is reached from [k] by calls none of which is [yield], [fork],
    [exit] or [kill], with whatever arguments. *)
Inductive quiet `{P : Platform} : kernel → kernel → Prop :=
  | quiet_refl k : quiet k k
  | quiet_step k k1 k2 (c c' : ctx_t) (id : Z) :
      quiet k k1 →
      id ≠ 0 → id ≠ 3 → id ≠ 4 → id ≠ 6 →
      hilevel_handler_svc c id k1 = Some (c', k2) →
      quiet k k2.

(** ** Fork *)

(** The entry of the process table that a fork in state [k] would take:
    the first terminated one from index 1, else [currentProcesses]. *)
Definition fork_slot `{P : Platform} (k : kernel) : option (fin MAX_PROCS) :=
  index MAX_PROCS
    (match find_terminated k with
     | Some i => fin_to_Z i
     | None => currentProcesses k
     end).

(** The state [k1] after [i] iterations of the descriptor loop of [fork]
    for the child [n], started in [k0]: the first [i] slots of the child
    hold the descriptors of the executing process [e]. *)
Definition fork_inv `{P : Platform} (k0 : kernel) (e n : fin MAX_PROCS)
    (i : nat) (k1 : kernel) : Prop :=
  executing k1 = executing k0
  ∧ time k1 = time k0
  ∧ mem k1 = mem k0
  ∧ uart k1 = uart k0
  ∧ heap k1 = heap k0
  ∧ currentProcesses k1 = currentProcesses k0
  ∧ ∃ F : vec Z MAX_FDS,
      procTab k1 = vinsert n (set_fdTab F (procTab k0 !!! n)) (procTab k0)
      ∧ ∀ l : fin MAX_FDS,
          F !!! l = if decide (fin_to_nat l < i)%nat
                    then fdTab (procTab k0 !!! e) !!! l
                    else fdTab (procTab k0 !!! n) !!! l.

(** The number of slots of a descriptor table that hold [v]. *)
Fixpoint count_fd (v : Z) (l : list Z) : Z :=
  match l with
  | [] => 0
  | w :: l => (if decide (w = v) then 1 else 0) + count_fd v l
  end.

(** The open file table of [k1] after [i] iterations of the descriptor
    loop of [fork] started in [k0] with the parent [e]: every entry has
    gained one reference for each of the first [i] slots of the parent that
    hold it. *)
Definition shares `{P : Platform} (k0 : kernel) (e : fin MAX_PROCS) (i : nat)
    (k1 : kernel) : Prop :=
  ∀ j, file (openFileTab k1 !!! j) = file (openFileTab k0 !!! j)
     ∧ flag (openFileTab k1 !!! j) = flag (openFileTab k0 !!! j)
     ∧ refCount (openFileTab k1 !!! j)
       = refCount (openFileTab k0 !!! j)
         + count_fd (fin_to_Z j)
             (take i (vec_to_list (fdTab (procTab k0 !!! e)))).

(** Entry [n] is the terminated entry of lowest index from 1 on. *)
Definition lowest_terminated `{P : Platform} (k : kernel) (n : fin MAX_PROCS)
    : Prop :=
  (1 ≤ fin_to_nat n)%nat
  ∧ status (procTab k !!! n) = STATUS_TERMINATED
  ∧ ∀ j, (1 ≤ fin_to_nat j)%nat → (fin_to_nat j < fin_to_nat n)%nat →
         status (procTab k !!! j) ≠ STATUS_TERMINATED.

(** The stages of [fork] before its descriptor loop.  First the entry [n]
    is cleared and given its pid, status, top of stack and the context of
    the caller. *)
Definition fork_entry `{P : Platform} (c : ctx_t) (n : fin MAX_PROCS) (iNew : Z)
    (k : kernel) : kernel :=
  let k := upd_pcb n (λ _, pcb_zero) k in
  let k := upd_pcb n (set_pid iNew) k in
  let k := upd_pcb n (set_status STATUS_READY) k in
  let k := upd_pcb n (set_tos (tos_p - (iNew - 1) * 8192)) k in
  upd_pcb n (set_ctx c) k.

(** [executing->tos - executing->ctx.sp], a [uint32_t]. *)
Definition stack_height `{P : Platform} (e : fin MAX_PROCS) (k : kernel) : Z :=
  u32 (tos (procTab k !!! e) - sp (ctx (procTab k !!! e))).

(** Then the stack pointer of the entry is set. *)
Definition fork_stack `{P : Platform} (n e : fin MAX_PROCS) (k : kernel) : kernel :=
  upd_pcb n (λ p, set_ctx (set_sp (tos p - stack_height e k) (ctx p)) p) k.

(** After the copy of the stack, with [m] the user memory that results,
    the entry gets the time stamp and the niceness of the caller. *)
Definition fork_stamp `{P : Platform} (n e : fin MAX_PROCS) (m : mem_t)
    (k : kernel) : kernel :=
  let k := set_mem m k in
  let k := upd_pcb n (set_lastExec (time k)) k in
  upd_pcb n (set_niceness (niceness (procTab k !!! e))) k.

(** The top of the stack that [fork] gives the entry [n]. *)
Definition child_tos `{P : Platform} (n : fin MAX_PROCS) : Z :=
  u32 (tos_p - (fin_to_Z n - 1) * 8192).

(** The stack height that [fork] takes for the caller [e] when the child
    goes to the entry [n]: it is read from the entry of the executing
    process, which holds the context saved at its last switch, or, when the
    child takes the entry of the caller itself, the context just copied
    there. *)
Definition fork_height `{P : Platform} (c : ctx_t) (k : kernel)
    (e n : fin MAX_PROCS) : Z :=
  if decide (n = e) then u32 (child_tos n - sp c)
  else u32 (tos (procTab k !!! e) - sp (ctx (procTab k !!! e))).

(** The stack pointer that [fork] gives the child. *)
Definition child_sp `{P : Platform} (c : ctx_t) (k : kernel)
    (e n : fin MAX_PROCS) : Z :=
  u32 (child_tos n - fork_height c k e n).

(** The copy of the stack that [fork] makes is defined. *)
Definition fork_copy_ok `{P : Platform} (c : ctx_t) (k : kernel)
    (e n : fin MAX_PROCS) : Prop :=
  copy_ok (child_sp c k e n) (sp c) (fork_height c k e n).

(** The height of the stack of the caller [e] at the trap, whose context
    is [c]. *)
Definition live_height `{P : Platform} (c : ctx_t) (k : kernel)
    (e : fin MAX_PROCS) : Z :=
  tos (procTab k !!! e) - sp c.

(** ** A fork below the top of the stack *)

(** A user memory with one byte set, the lowest of the 16 bytes below the
    top of the stack of the console. *)
Definition marked_mem : mem_t :=
  λ a, if decide (a = 0x70100000 - 16) then x2a else x00.

(** The demo platform after reset over that memory and a yield of the
    console with 16 bytes on its stack: the scheduler saves that context in
    the entry of the console and dispatches the console again. *)
Definition demo_deep : ctx_t * @kernel demo :=
  after (hilevel_handler_svc (set_sp (0x70100000 - 16) ctx_zero) 0
           (snd (after (hilevel_handler_rst ctx_zero (boot marked_mem))))).

(** ** Pipes as queues *)

(** The bytes of user memory at [x], [x + 1], ..., [x + n - 1]. *)
Definition bytes_at (m : mem_t) (x : Z) (n : nat) : list byte :=
  (λ j : nat, m (x + Z.of_nat j)) <$> seq 0 n.

(** The byte of the buffer at an index given as an [int]. *)
Definition buffer_at `{P : Platform} (p : pipe_t) (z : Z) : byte :=
  match index BUFFER_SIZE z with
  | Some f => pipe_buffer p !!! f
  | None => x00
  end.

(** The number of bytes queued in a pipe. *)
Definition pipe_count `{P : Platform} (p : pipe_t) : Z :=
  if pipe_full p then pipe_size p
  else (pipe_rear p + 1 - pipe_front p) mod pipe_size p.

(** The pipe [p] is well formed and holds the queue [q], oldest byte
    first. *)
Definition pipe_holds `{P : Platform} (p : pipe_t) (q : list byte) : Prop :=
  pipe_size p = Z.of_nat BUFFER_SIZE
  ∧ 0 ≤ pipe_front p < pipe_size p
  ∧ -1 ≤ pipe_rear p < pipe_size p
  ∧ (pipe_full p = true → pipe_front p = (pipe_rear p + 1) mod pipe_size p)
  ∧ pipe_count p = Z.of_nat (length q)
  ∧ ∀ (j : nat) b, q !! j = Some b →
      buffer_at p ((pipe_front p + Z.of_nat j) mod pipe_size p) = b.

(** ** A round trip of two bytes *)

(** A user memory that holds the bytes [h] and [i] at the addresses 2000
    and 2001. *)
Definition text_mem : mem_t :=
  λ a, if decide (a = 2000) then x68 else if decide (a = 2001) then x69 else x00.

(** The demo platform after reset over that memory, and after a call of
    [pipe] whose result goes to the user address 1000. *)
Definition demo_text : ctx_t * @kernel demo :=
  after (hilevel_handler_rst ctx_zero (boot text_mem)).

Definition demo_text_piped : ctx_t * @kernel demo :=
  after (hilevel_handler_svc (with_args 1000 0 0 (fst demo_text)) 8
           (snd demo_text)).

(** ** Scheduling *)

Definition ready `{P : Platform} (k : kernel) (i : fin MAX_PROCS) : Prop :=
  status (procTab k !!! i) = STATUS_READY.

(** The aging score of entry [i] at the current tick. *)
Definition score `{P : Platform} (k : kernel) (i : fin MAX_PROCS) : Z :=
  aging_score (time k) (procTab k !!! i).

(** The pair [(highestPriority, nextIndex)] after the first [n] iterations
    of the loop of [schedule], [e] being the executing entry: either no
    ready entry reached the starting bound and the pair is as initialised,
    or the pair designates the last of the ready entries so far whose score
    is maximal. *)
Definition sched_inv `{P : Platform} (k : kernel) (e : fin MAX_PROCS) (n : nat)
    (acc : Z * Z) : Prop :=
  let bound := niceness (procTab k !!! e) - 1 in
  (acc = (bound, pid (procTab k !!! e))
   ∧ ∀ m, (fin_to_nat m < n)%nat → ready k m → score k m < bound)
  ∨ (∃ m, (fin_to_nat m < n)%nat ∧ ready k m
       ∧ acc = (score k m, fin_to_Z m)
       ∧ bound ≤ score k m
       ∧ ∀ m', (fin_to_nat m' < n)%nat → ready k m' →
           score k m' ≤ score k m
           ∧ ((fin_to_nat m < fin_to_nat m')%nat → score k m' < score k m)).

(** The demo platform after reset and a yield of the console, which makes
    the console EXECUTING. *)
Definition demo_yielded : ctx_t * @kernel demo :=
  after (hilevel_handler_svc (fst demo_booted) 0 (snd demo_booted)).

(** Then two forks by the console: two ready children of equal score. *)
Definition demo_tied1 : ctx_t * @kernel demo :=
  after (hilevel_handler_svc (fst demo_yielded) 3 (snd demo_yielded)).

Definition demo_tied : ctx_t * @kernel demo :=
  after (hilevel_handler_svc (fst demo_tied1) 3 (snd demo_tied1)).

(** Or, after the yield, [nice(0, 20)], a fork and [nice(1, 0)]: one ready
    child next to a console of niceness 20. *)
Definition demo_nice1 : ctx_t * @kernel demo :=
  after (hilevel_handler_svc (with_args 0 20 0 (fst demo_yielded)) 7
           (snd demo_yielded)).

Definition demo_nice2 : ctx_t * @kernel demo :=
  after (hilevel_handler_svc (fst demo_nice1) 3 (snd demo_nice1)).

Definition demo_nice : ctx_t * @kernel demo :=
  after (hilevel_handler_svc (with_args 1 0 0 (fst demo_nice2)) 7
           (snd demo_nice2)).

(** * Properties *)

(** ** Indices and loops *)

Lemma nat_index_Some n i (f : fin n) :
  nat_index n i = Some f ↔ fin_to_nat f = i.
Proof.
  revert i f. induction n as [|n IH]; intros i f.
  - inversion f.
  - destruct i as [|i]; simpl.
    + split.
      * intros [= <-]. done.
      * intros Hf. inv_fin f; [done|]. intros f. simpl. discriminate.
    + split.
      * intros Hf. destruct (nat_index n i) as [g|] eqn:Hg; simplify_eq/=.
        f_equal. by apply IH.
      * inv_fin f; [discriminate|]. intros f [=Hf]. simpl in *.
        apply IH in Hf. by rewrite Hf.
Qed.

Lemma nat_index_fin n (f : fin n) : nat_index n (fin_to_nat f) = Some f.
Proof. by apply nat_index_Some. Qed.

Lemma nat_index_None n i : (n ≤ i)%nat → nat_index n i = None.
Proof.
  intros Hi. destruct (nat_index n i) as [f|] eqn:Hf; [|done].
  apply nat_index_Some in Hf. pose proof (fin_to_nat_lt f). lia.
Qed.

Lemma nat_index_lt n i : (i < n)%nat → ∃ f : fin n, nat_index n i = Some f.
Proof.
  intros Hi. exists (nat_to_fin Hi). apply nat_index_Some, fin_to_nat_to_fin.
Qed.

Lemma fin_to_Z_range n (f : fin n) : 0 ≤ fin_to_Z f < Z.of_nat n.
Proof. unfold fin_to_Z. pose proof (fin_to_nat_lt f). lia. Qed.

Lemma fin_to_Z_inj n (f g : fin n) : fin_to_Z f = fin_to_Z g → f = g.
Proof. unfold fin_to_Z. intros H. apply (inj fin_to_nat). lia. Qed.

Lemma index_fin n (f : fin n) : index n (fin_to_Z f) = Some f.
Proof.
  unfold index, fin_to_Z. rewrite decide_True by lia.
  rewrite Nat2Z.id. apply nat_index_fin.
Qed.

Lemma index_Some n i (f : fin n) : index n i = Some f ↔ fin_to_Z f = i.
Proof.
  split.
  - unfold index, fin_to_Z. case_decide; [|done].
    intros Hf%nat_index_Some. lia.
  - intros <-. apply index_fin.
Qed.

Lemma index_in_range n i : 0 ≤ i < Z.of_nat n → ∃ f : fin n, index n i = Some f.
Proof.
  intros Hi. unfold index. rewrite decide_True by lia.
  apply nat_index_lt. lia.
Qed.

Lemma index_out_of_range n i : ¬ (0 ≤ i < Z.of_nat n) → index n i = None.
Proof.
  intros Hi. destruct (index n i) as [f|] eqn:Hf; [|done].
  apply index_Some in Hf. pose proof (fin_to_Z_range n f). lia.
Qed.

(** The invariant rule of the loop [fin_for]: an invariant [I], indexed by
    the number of iterations done, that every defined iteration carries one
    step further holds at the end; the loop is defined when each iteration
    is defined under the invariant. *)
Lemma fin_for_rule {S : Type} (I : nat → S → Prop) n
    (body : fin n → S → option S) (s : S) :
  I 0%nat s →
  (∀ (i : fin n) s, I (fin_to_nat i) s →
     ∃ s', body i s = Some s' ∧ I (Datatypes.S (fin_to_nat i)) s') →
  ∃ s', fin_for n body s = Some s' ∧ I n s'.
Proof.
  revert I body s. induction n as [|n IH]; intros I body s H0 Hstep.
  - exists s. done.
  - destruct (Hstep 0%fin s H0) as (s1 & Hs1 & HI1). simpl. rewrite Hs1. simpl.
    apply (IH (λ j, I (Datatypes.S j))); [done|].
    intros i s2 Hs2. apply (Hstep (FS i)). done.
Qed.

(** The same rule for loops that are known to be defined. *)
Lemma fin_for_inv {S : Type} (I : nat → S → Prop) n
    (body : fin n → S → option S) (s s' : S) :
  I 0%nat s →
  (∀ (i : fin n) s s', I (fin_to_nat i) s → body i s = Some s' →
     I (Datatypes.S (fin_to_nat i)) s') →
  fin_for n body s = Some s' → I n s'.
Proof.
  revert I body s. induction n as [|n IH]; intros I body s H0 Hstep Hrun.
  - simpl in Hrun. by simplify_eq.
  - simpl in Hrun. destruct (body 0%fin s) as [s1|] eqn:Hs1; [|done].
    simpl in Hrun.
    apply (IH (λ j, I (Datatypes.S j)) (λ i, body (FS i)) s1); [|..|done].
    + by apply (Hstep 0%fin s).
    + intros i s2 s3 Hs2 Hs3. by apply (Hstep (FS i) s2).
Qed.

Lemma string_app_assoc (a b c : string) : (a +:+ b) +:+ c = a +:+ (b +:+ c).
Proof.
  induction a as [|x a IH]; [done|].
  change (String x ((a +:+ b) +:+ c) = String x (a +:+ (b +:+ c))).
  by rewrite IH.
Qed.

(** ** Searches *)

Lemma vfindi_Some_iff {A n} (Q : nat → A → bool) lo (v : vec A n) i :
  vfindi Q lo v = Some i ↔
  Q (lo + fin_to_nat i)%nat (v !!! i) = true
  ∧ ∀ j, (fin_to_nat j < fin_to_nat i)%nat →
      Q (lo + fin_to_nat j)%nat (v !!! j) = false.
Proof.
  revert lo i. induction v as [|x n v IH]; intros lo i; [inv_fin i|].
  cbn [vfindi]. destruct (Q lo x) eqn:Hx.
  - split.
    + intros [= <-]. simpl. rewrite Nat.add_0_r. split; [done|]. intros j Hj. lia.
    + intros [Hi Hfirst]. inv_fin i; [done|]. intros i Hi Hfirst.
      specialize (Hfirst 0%fin). simpl in Hfirst. rewrite Nat.add_0_r in Hfirst.
      rewrite Hfirst in Hx by lia. done.
  - inv_fin i.
    + simpl. rewrite Nat.add_0_r. split; [by destruct (vfindi _ _ _)|].
      intros [Hi _]. congruence.
    + intros i. simpl. specialize (IH (S lo) i). split.
      * destruct (vfindi Q (S lo) v) as [i'|] eqn:Hi'; [|done].
        intros Hii. simpl in Hii. apply (inj Some) in Hii.
        apply (inj FS) in Hii. subst i'.
        destruct (proj1 IH eq_refl) as [Hi Hfirst]. split.
        -- by rewrite Nat.add_succ_r.
        -- intros j. inv_fin j.
           ++ intros _. simpl. by rewrite Nat.add_0_r.
           ++ intros j Hj. simpl in *. rewrite Nat.add_succ_r.
              apply Hfirst. lia.
      * intros [Hi Hfirst]. rewrite (proj2 IH); [done|]. split.
        -- by rewrite Nat.add_succ_r in Hi.
        -- intros j Hj. specialize (Hfirst (FS j)). simpl in Hfirst.
           rewrite Nat.add_succ_r in Hfirst. apply Hfirst. lia.
Qed.

Lemma vfindi_None_iff {A n} (Q : nat → A → bool) lo (v : vec A n) :
  vfindi Q lo v = None ↔ ∀ j, Q (lo + fin_to_nat j)%nat (v !!! j) = false.
Proof.
  revert lo. induction v as [|x n v IH]; intros lo.
  - split; [|done]. intros _ j. inv_fin j.
  - cbn [vfindi]. destruct (Q lo x) eqn:Hx.
    + split; [done|]. intros Hall. specialize (Hall 0%fin). simpl in Hall.
      rewrite Nat.add_0_r in Hall. congruence.
    + specialize (IH (S lo)). split.
      * intros Hnone. destruct (vfindi Q (S lo) v) eqn:Hv; [done|].
        intros j. inv_fin j.
        -- simpl. by rewrite Nat.add_0_r.
        -- intros j. simpl. rewrite Nat.add_succ_r. by apply IH.
      * intros Hall. rewrite (proj2 IH); [done|]. intros j.
        specialize (Hall (FS j)). simpl in Hall.
        by rewrite Nat.add_succ_r in Hall.
Qed.

(** ** Machine integers and registers *)

Lemma u32_range z : 0 ≤ u32 z < 2 ^ 32.
Proof. unfold u32. apply Z.mod_pos_bound. lia. Qed.

Lemma u32_small z : 0 ≤ z < 2 ^ 32 → u32 z = z.
Proof. unfold u32. apply Z.mod_small. Qed.

Lemma u32_u32 z : u32 (u32 z) = u32 z.
Proof. apply u32_small, u32_range. Qed.

Lemma s32_u32 z : - 2 ^ 31 ≤ z < 2 ^ 31 → s32 (u32 z) = z.
Proof.
  intros Hz. unfold s32. rewrite u32_u32. unfold u32.
  destruct (decide (0 ≤ z)).
  - rewrite Z.mod_small by lia. by rewrite decide_True by lia.
  - replace (z mod 2 ^ 32) with (z + 2 ^ 32).
    + rewrite decide_False by lia. lia.
    + apply Z.mod_unique with (-1); lia.
Qed.

Lemma s32_range z : - 2 ^ 31 ≤ s32 z < 2 ^ 31.
Proof. unfold s32. pose proof (u32_range z). case_decide; lia. Qed.

Lemma gpr0_set_gpr0 v c : gpr0 (set_gpr0 v c) = u32 v.
Proof. unfold gpr0, set_gpr0. cbn [gpr]. apply vlookup_insert. Qed.

Lemma gpr_set_gpr0_ne v c (r : fin 13) :
  r ≠ 0%fin → gpr (set_gpr0 v c) !!! r = gpr c !!! r.
Proof. intros Hr. unfold set_gpr0. cbn [gpr]. by rewrite vlookup_insert_ne. Qed.

(** ** Records and tables *)

Section Tables.
Context `{P : Platform}.

Lemma vinsert_vinsert {A n} (i : fin n) (x y : A) (v : vec A n) :
  vinsert i x (vinsert i y v) = vinsert i x v.
Proof.
  apply vec_eq. intros j. destruct (decide (i = j)) as [->|Hij].
  - by rewrite !vlookup_insert.
  - by rewrite !vlookup_insert_ne.
Qed.

Lemma upd_pcb_upd_pcb i f g (k : kernel) :
  upd_pcb i f (upd_pcb i g k) = upd_pcb i (λ p, f (g p)) k.
Proof.
  unfold upd_pcb, set_procTab. simpl.
  by rewrite vlookup_insert, vinsert_vinsert.
Qed.

Lemma upd_fd_upd_fd i f g (k : kernel) :
  upd_fd i f (upd_fd i g k) = upd_fd i (λ p, f (g p)) k.
Proof.
  unfold upd_fd, set_openFileTab. simpl.
  by rewrite vlookup_insert, vinsert_vinsert.
Qed.

Lemma procTab_upd_pcb_eq i f (k : kernel) :
  procTab (upd_pcb i f k) !!! i = f (procTab k !!! i).
Proof. simpl. apply vlookup_insert. Qed.

Lemma procTab_upd_pcb_ne i j f (k : kernel) :
  i ≠ j → procTab (upd_pcb i f k) !!! j = procTab k !!! j.
Proof. intros. simpl. by apply vlookup_insert_ne. Qed.

Lemma openFileTab_upd_fd_eq i f (k : kernel) :
  openFileTab (upd_fd i f k) !!! i = f (openFileTab k !!! i).
Proof. simpl. apply vlookup_insert. Qed.

Lemma openFileTab_upd_fd_ne i j f (k : kernel) :
  i ≠ j → openFileTab (upd_fd i f k) !!! j = openFileTab k !!! j.
Proof. intros. simpl. by apply vlookup_insert_ne. Qed.

Lemma currentProcesses_upd_pcb i f (k : kernel) :
  currentProcesses (upd_pcb i f k) = currentProcesses k.
Proof. done. Qed.

Lemma time_upd_pcb i f (k : kernel) :
  time (upd_pcb i f k) = time k.
Proof. done. Qed.

Lemma openFileTab_upd_pcb i f (k : kernel) :
  openFileTab (upd_pcb i f k) = openFileTab k.
Proof. done. Qed.

Lemma executing_upd_pcb i f (k : kernel) :
  executing (upd_pcb i f k) = executing k.
Proof. done. Qed.

Lemma heap_upd_pcb i f (k : kernel) :
  heap (upd_pcb i f k) = heap k.
Proof. done. Qed.

Lemma mem_upd_pcb i f (k : kernel) :
  mem (upd_pcb i f k) = mem k.
Proof. done. Qed.

Lemma uart_upd_pcb i f (k : kernel) :
  uart (upd_pcb i f k) = uart k.
Proof. done. Qed.

Lemma currentProcesses_upd_fd i f (k : kernel) :
  currentProcesses (upd_fd i f k) = currentProcesses k.
Proof. done. Qed.

Lemma time_upd_fd i f (k : kernel) :
  time (upd_fd i f k) = time k.
Proof. done. Qed.

Lemma procTab_upd_fd i f (k : kernel) :
  procTab (upd_fd i f k) = procTab k.
Proof. done. Qed.

Lemma executing_upd_fd i f (k : kernel) :
  executing (upd_fd i f k) = executing k.
Proof. done. Qed.

Lemma heap_upd_fd i f (k : kernel) :
  heap (upd_fd i f k) = heap k.
Proof. done. Qed.

Lemma mem_upd_fd i f (k : kernel) :
  mem (upd_fd i f k) = mem k.
Proof. done. Qed.

Lemma uart_upd_fd i f (k : kernel) :
  uart (upd_fd i f k) = uart k.
Proof. done. Qed.

Lemma currentProcesses_printPID pid (k : kernel) :
  currentProcesses (printPID pid k) = currentProcesses k.
Proof. unfold printPID. by case_decide. Qed.

Lemma time_printPID pid (k : kernel) :
  time (printPID pid k) = time k.
Proof. unfold printPID. by case_decide. Qed.

Lemma procTab_printPID pid (k : kernel) :
  procTab (printPID pid k) = procTab k.
Proof. unfold printPID. by case_decide. Qed.

Lemma openFileTab_printPID pid (k : kernel) :
  openFileTab (printPID pid k) = openFileTab k.
Proof. unfold printPID. by case_decide. Qed.

Lemma executing_printPID pid (k : kernel) :
  executing (printPID pid k) = executing k.
Proof. unfold printPID. by case_decide. Qed.

Lemma heap_printPID pid (k : kernel) :
  heap (printPID pid k) = heap k.
Proof. unfold printPID. by case_decide. Qed.

Lemma mem_printPID pid (k : kernel) :
  mem (printPID pid k) = mem k.
Proof. unfold printPID. by case_decide. Qed.

Lemma currentProcesses_print x n (k : kernel) :
  currentProcesses (print x n k) = currentProcesses k.
Proof. unfold print. generalize (take (Z.to_nat n) (list_ascii_of_string x)). intros l. revert k. induction l as [|a l IH]; intros k; [done|]. simpl. by rewrite IH. Qed.

Lemma time_print x n (k : kernel) :
  time (print x n k) = time k.
Proof. unfold print. generalize (take (Z.to_nat n) (list_ascii_of_string x)). intros l. revert k. induction l as [|a l IH]; intros k; [done|]. simpl. by rewrite IH. Qed.

Lemma procTab_print x n (k : kernel) :
  procTab (print x n k) = procTab k.
Proof. unfold print. generalize (take (Z.to_nat n) (list_ascii_of_string x)). intros l. revert k. induction l as [|a l IH]; intros k; [done|]. simpl. by rewrite IH. Qed.

Lemma openFileTab_print x n (k : kernel) :
  openFileTab (print x n k) = openFileTab k.
Proof. unfold print. generalize (take (Z.to_nat n) (list_ascii_of_string x)). intros l. revert k. induction l as [|a l IH]; intros k; [done|]. simpl. by rewrite IH. Qed.

Lemma executing_print x n (k : kernel) :
  executing (print x n k) = executing k.
Proof. unfold print. generalize (take (Z.to_nat n) (list_ascii_of_string x)). intros l. revert k. induction l as [|a l IH]; intros k; [done|]. simpl. by rewrite IH. Qed.

Lemma heap_print x n (k : kernel) :
  heap (print x n k) = heap k.
Proof. unfold print. generalize (take (Z.to_nat n) (list_ascii_of_string x)). intros l. revert k. induction l as [|a l IH]; intros k; [done|]. simpl. by rewrite IH. Qed.

Lemma mem_print x n (k : kernel) :
  mem (print x n k) = mem k.
Proof. unfold print. generalize (take (Z.to_nat n) (list_ascii_of_string x)). intros l. revert k. induction l as [|a l IH]; intros k; [done|]. simpl. by rewrite IH. Qed.

Lemma currentProcesses_put_bytes m todo x (k : kernel) :
  currentProcesses (put_bytes m todo x k) = currentProcesses k.
Proof. revert x k. induction todo as [|todo IH]; intros x k; [done|]. simpl. by rewrite IH. Qed.

Lemma time_put_bytes m todo x (k : kernel) :
  time (put_bytes m todo x k) = time k.
Proof. revert x k. induction todo as [|todo IH]; intros x k; [done|]. simpl. by rewrite IH. Qed.

Lemma procTab_put_bytes m todo x (k : kernel) :
  procTab (put_bytes m todo x k) = procTab k.
Proof. revert x k. induction todo as [|todo IH]; intros x k; [done|]. simpl. by rewrite IH. Qed.

Lemma openFileTab_put_bytes m todo x (k : kernel) :
  openFileTab (put_bytes m todo x k) = openFileTab k.
Proof. revert x k. induction todo as [|todo IH]; intros x k; [done|]. simpl. by rewrite IH. Qed.

Lemma executing_put_bytes m todo x (k : kernel) :
  executing (put_bytes m todo x k) = executing k.
Proof. revert x k. induction todo as [|todo IH]; intros x k; [done|]. simpl. by rewrite IH. Qed.

Lemma heap_put_bytes m todo x (k : kernel) :
  heap (put_bytes m todo x k) = heap k.
Proof. revert x k. induction todo as [|todo IH]; intros x k; [done|]. simpl. by rewrite IH. Qed.

Lemma mem_put_bytes m todo x (k : kernel) :
  mem (put_bytes m todo x k) = mem k.
Proof. revert x k. induction todo as [|todo IH]; intros x k; [done|]. simpl. by rewrite IH. Qed.

(** [free] is defined on NULL and on a live address, and it changes the
    store only. *)
Lemma free_Some p (k k' : kernel) :
  free p k = Some k' ↔
  match p with
  | None => k' = k
  | Some a => is_Some (heap k !! a) ∧ k' = set_heap (delete a (heap k)) k
  end.
Proof.
  unfold free. destruct p as [a|]; [|split; congruence].
  destruct (heap k !! a) as [q|] eqn:Ha.
  - split; [intros [= <-]; by eauto|by intros [_ ->]].
  - split; [done|]. by intros [[q Hq] _].
Qed.

Lemma free_frame p (k k' : kernel) :
  free p k = Some k' →
  currentProcesses k' = currentProcesses k
  ∧ time k' = time k
  ∧ procTab k' = procTab k
  ∧ openFileTab k' = openFileTab k
  ∧ executing k' = executing k
  ∧ mem k' = mem k
  ∧ uart k' = uart k.
Proof.
  intros Hf%free_Some. destruct p as [a|]; [destruct Hf as [_ ->]|subst]; done.
Qed.

Lemma procTab_upd_pcb i f (k : kernel) :
  procTab (upd_pcb i f k) = vinsert i (f (procTab k !!! i)) (procTab k).
Proof. done. Qed.

Lemma openFileTab_upd_fd i f (k : kernel) :
  openFileTab (upd_fd i f k) = vinsert i (f (openFileTab k !!! i)) (openFileTab k).
Proof. done. Qed.

Lemma heap_free_subset p (k k' : kernel) a q :
  free p k = Some k' → heap k' !! a = Some q → heap k !! a = Some q.
Proof.
  intros Hf%free_Some. destruct p as [b|]; [destruct Hf as [_ ->]|by subst].
  cbn [heap set_heap]. intros Ha. by apply lookup_delete_Some in Ha as [_ ?].
Qed.

End Tables.

Create Rewrite HintDb kernel.

#[global] Hint Rewrite
  @currentProcesses_upd_pcb
  @time_upd_pcb
  @openFileTab_upd_pcb
  @executing_upd_pcb
  @heap_upd_pcb
  @mem_upd_pcb
  @uart_upd_pcb
  @currentProcesses_upd_fd
  @time_upd_fd
  @procTab_upd_fd
  @executing_upd_fd
  @heap_upd_fd
  @mem_upd_fd
  @uart_upd_fd
  @currentProcesses_printPID
  @time_printPID
  @procTab_printPID
  @openFileTab_printPID
  @executing_printPID
  @heap_printPID
  @mem_printPID
  @currentProcesses_print
  @time_print
  @procTab_print
  @openFileTab_print
  @executing_print
  @heap_print
  @mem_print
  @currentProcesses_put_bytes
  @time_put_bytes
  @procTab_put_bytes
  @openFileTab_put_bytes
  @executing_put_bytes
  @heap_put_bytes
  @mem_put_bytes
  @procTab_upd_pcb_eq @openFileTab_upd_fd_eq @upd_pcb_upd_pcb @upd_fd_upd_fd : kernel.

(** Projections of updated kernel states, without unfolding the tables. *)
Ltac kfields :=
  repeat (progress
    (autorewrite with kernel;
     cbn [currentProcesses time procTab openFileTab executing heap mem uart
          set_currentProcesses set_time set_procTab set_openFileTab
          set_executing set_heap set_mem set_uart PL011_putc
          pid status tos ctx lastExec niceness fdTab
          set_pid set_status set_tos set_ctx set_lastExec set_niceness
          set_fdTab
          file flag refCount
          cpsr pc gpr sp lr set_gpr0 set_sp set_pc set_cpsr gpr0 gpr1 gpr2])).

Tactic Notation "kfields" "in" hyp(H) :=
  repeat (progress
    (autorewrite with kernel in H;
     cbn [currentProcesses time procTab openFileTab executing heap mem uart
          set_currentProcesses set_time set_procTab set_openFileTab
          set_executing set_heap set_mem set_uart PL011_putc
          pid status tos ctx lastExec niceness fdTab
          set_pid set_status set_tos set_ctx set_lastExec set_niceness
          set_fdTab
          file flag refCount
          cpsr pc gpr sp lr set_gpr0 set_sp set_pc set_cpsr gpr0 gpr1 gpr2] in H)).

(** The same, looking up entries other than the updated one. *)
Ltac kfields_ne :=
  repeat (progress
    (kfields;
     rewrite ?procTab_upd_pcb_ne by done;
     rewrite ?openFileTab_upd_fd_ne by done)).

Lemma fin4_cases (Q : fin 4 → Prop) :
  Q 0%fin → Q 1%fin → Q 2%fin → Q 3%fin → ∀ i, Q i.
Proof.
  intros H0 H1 H2 H3 i.
  pose proof (nat_index_fin 4 i) as Hi. pose proof (fin_to_nat_lt i) as Hlt.
  destruct (fin_to_nat i) as [|[|[|[|n]]]]; simpl in Hi; simplify_eq;
    done || lia.
Qed.

Lemma demo_slots (Q : fin (@MAX_PROCS demo) → Prop) :
  Q demo_slot0 → Q demo_slot1 → Q demo_slot2 → Q demo_slot3 → ∀ i, Q i.
Proof. apply (fin4_cases Q). Qed.

(** Closed comparisons and equations, by evaluation. *)
Ltac by_eval :=
  vm_compute; first [reflexivity | let H := fresh in intros H; discriminate H].

(** The same under a hypothesis that evaluates to an absurd equation or to
    a trivial one. *)
Ltac by_eval_under H :=
  vm_compute in H; first [discriminate H | clear H; by_eval].

(** Closed decidable propositions, by evaluation of their decision. *)
Ltac by_decide :=
  cbv beta;
  lazymatch goal with
  | |- ¬ ?Q => apply (bool_decide_eq_false_1 Q); vm_compute; reflexivity
  | |- ?Q → False => apply (bool_decide_eq_false_1 Q); vm_compute; reflexivity
  | |- ?Q => apply (bool_decide_eq_true_1 Q); vm_compute; reflexivity
  end.

(** ** Reset *)

Section Reset.
Context `{P : Platform}.

Lemma uart_printPID pid (k : kernel) :
  0 ≤ pid < 10 →
  uart (printPID pid k) = uart k +:+ String (char_of_int (48 + pid)) "".
Proof.
  intros Hpid. unfold printPID. rewrite decide_False by lia.
  rewrite Z.rem_small by lia. done.
Qed.

(** C7, amended: the reset handler is defined as soon as the process table
    has an entry 0, and what it sends to the UART is exactly [R[?->0]]: the
    marker, then one dispatch record with [?] for the null predecessor and
    the successor pid 0 printed as the single digit [0]. *)
Theorem reset_output (c : ctx_t) (k : kernel) :
  (0 < MAX_PROCS)%nat →
  ∃ c' k', hilevel_handler_rst c k = Some (c', k')
           ∧ uart k' = uart k +:+ "R[?->0]".
Proof.
  intros Hn. destruct (index_in_range MAX_PROCS 0) as [p0 Hp0]; [lia|].
  unfold hilevel_handler_rst. rewrite Hp0. cbn [mbind option_bind].
  unfold dispatch. eexists _, _. split; [done|].
  kfields. rewrite uart_printPID by lia. kfields.
  by rewrite !string_app_assoc.
Qed.

End Reset.

Lemma reset_output_witness :
  ∃ c' k', @hilevel_handler_rst demo ctx_zero (boot zero_mem) = Some (c', k')
           ∧ uart k' = "R[?->0]".
Proof. apply (@reset_output demo ctx_zero (boot zero_mem)). simpl. lia. Defined.

(** C7 as stated fails: on the demo platform the reset handler emits
    [R[?->0]], which is not [R[?->00]]. *)
Lemma reset_output_not_two_digits :
  ∃ c' k', demo_reset = Some (c', k')
           ∧ uart k' = "R[?->0]" ∧ uart k' ≠ "R[?->00]".
Proof. eexists _, _. split; [vm_compute; reflexivity|]. by vm_compute. Qed.

(** ** Fork on a full process table *)

Section ForkFull.
Context `{P : Platform}.

(** C4: when [currentProcesses] has reached [MAX_PROCS], fork writes -1 to
    [gpr[0]] of the caller and changes nothing in the kernel but the UART
    output: the process table, [currentProcesses] and the open file table
    stay as they are. *)
Theorem fork_table_full (c : ctx_t) (k : kernel) :
  Z.of_nat MAX_PROCS ≤ currentProcesses k →
  ∃ k', hilevel_handler_svc c 3 k = Some (set_gpr0 (-1) c, k')
        ∧ s32 (gpr0 (set_gpr0 (-1) c)) = -1
        ∧ procTab k' = procTab k
        ∧ currentProcesses k' = currentProcesses k
        ∧ openFileTab k' = openFileTab k
        ∧ executing k' = executing k
        ∧ time k' = time k
        ∧ heap k' = heap k
        ∧ mem k' = mem k.
Proof.
  intros Hfull. cbn [hilevel_handler_svc]. unfold svc_fork.
  kfields. rewrite decide_True by done.
  eexists. split; [done|]. kfields.
  by rewrite gpr0_set_gpr0, s32_u32.
Qed.

End ForkFull.

Lemma fork_table_full_witness :
  ∃ k', hilevel_handler_svc (fst demo_full) 3 (snd demo_full)
          = Some (set_gpr0 (-1) (fst demo_full), k')
        ∧ s32 (gpr0 (set_gpr0 (-1) (fst demo_full))) = -1
        ∧ procTab k' = procTab (snd demo_full)
        ∧ currentProcesses k' = currentProcesses (snd demo_full)
        ∧ openFileTab k' = openFileTab (snd demo_full)
        ∧ executing k' = executing (snd demo_full)
        ∧ time k' = time (snd demo_full)
        ∧ heap k' = heap (snd demo_full)
        ∧ mem k' = mem (snd demo_full).
Proof. apply (@fork_table_full demo). by vm_compute. Defined.

(** ** Closing descriptors *)

Section Close.
Context `{P : Platform}.

Lemma s32_u32_idemp z : s32 (u32 z) = s32 z.
Proof. unfold s32. by rewrite u32_u32. Qed.

(** The effect of [close_fd] on a descriptor within range whose entry is
    releasable. *)
Lemma close_fd_in_range fd pid (k : kernel) i t :
  index MAX_FDS fd = Some i →
  index MAX_PROCS pid = Some t →
  releasable k i →
  ∃ k', close_fd fd pid k = Some (0, k')
    ∧ procTab k' =
        vinsert t
          (set_fdTab (vmap (λ v, if decide (v = fd) then -1 else v)
                           (fdTab (procTab k !!! t))) (procTab k !!! t))
          (procTab k)
    ∧ openFileTab k' =
        vinsert i {| file := file (openFileTab k !!! i);
                     flag := flag (openFileTab k !!! i);
                     refCount := refCount (openFileTab k !!! i) - 1 |}
          (openFileTab k)
    ∧ currentProcesses k' = currentProcesses k
    ∧ time k' = time k
    ∧ executing k' = executing k
    ∧ mem k' = mem k
    ∧ uart k' = uart k
    ∧ heap k' = heap_closed k i.
Proof.
  intros Hi Ht Hrel. unfold close_fd, heap_closed.
  pose proof (proj1 (index_Some _ _ _) Hi) as Hfd.
  pose proof (fin_to_Z_range _ i).
  rewrite decide_True by lia. rewrite Hi, Ht. cbn [mbind option_bind].
  match goal with |- context [free _ ?K] => set (k1 := K) end.
  assert (refCount (openFileTab k1 !!! i) = refCount (openFileTab k !!! i) - 1
          ∧ file (openFileTab k1 !!! i) = file (openFileTab k !!! i)
          ∧ heap k1 = heap k) as (Hrc1 & Hfile1 & Hheap1).
  { unfold k1. by kfields. }
  assert (∃ k', (if decide (refCount (openFileTab k1 !!! i) ≤ 0)
                 then free (file (openFileTab k1 !!! i)) k1 else Some k1)
                = Some k'
                ∧ heap k' =
                    (if decide (refCount (openFileTab k !!! i) ≤ 1) then
                       match file (openFileTab k !!! i) with
                       | Some a => delete a (heap k)
                       | None => heap k
                       end
                     else heap k)
                ∧ currentProcesses k' = currentProcesses k1
                ∧ time k' = time k1
                ∧ procTab k' = procTab k1
                ∧ openFileTab k' = openFileTab k1
                ∧ executing k' = executing k1
                ∧ mem k' = mem k1
                ∧ uart k' = uart k1)
    as (k' & -> & Hheap & Hcp & Htime & Hproc & Hopen & Hex & Hmem & Huart).
  { rewrite Hrc1, Hfile1.
    destruct (decide (refCount (openFileTab k !!! i) ≤ 1)) as [Hrc|Hrc].
    - rewrite decide_True by lia.
      destruct (file (openFileTab k !!! i)) as [a|] eqn:Ha.
      + destruct (Hrel Hrc a Ha) as [q Hq].
        exists (set_heap (delete a (heap k1)) k1).
        split; [apply free_Some; by rewrite Hheap1, Hq|].
        by rewrite <- Hheap1.
      + by exists k1.
    - rewrite decide_False by lia. by exists k1. }
  cbn [mbind option_bind]. exists k'. split; [done|].
  rewrite Hheap, Hcp, Htime, Hproc, Hopen, Hex, Hmem, Huart.
  unfold k1. by kfields.
Qed.

(** Closing an entry whose count is to reach zero or less and whose pointer
    designates a pipe released before releases that pipe a second time. *)
Lemma close_fd_released fd pid (k : kernel) i t a :
  index MAX_FDS fd = Some i →
  index MAX_PROCS pid = Some t →
  refCount (openFileTab k !!! i) ≤ 1 →
  file (openFileTab k !!! i) = Some a →
  heap k !! a = None →
  close_fd fd pid k = None.
Proof.
  intros Hi Ht Hrc Ha Hgone. unfold close_fd.
  pose proof (proj1 (index_Some _ _ _) Hi) as Hfd.
  pose proof (fin_to_Z_range _ i).
  rewrite decide_True by lia. rewrite Hi, Ht. cbn [mbind option_bind].
  kfields. rewrite decide_True by lia. unfold free. rewrite Ha. kfields.
  by rewrite Hgone.
Qed.

Lemma close_fd_out_of_range fd pid (k : kernel) :
  index MAX_FDS fd = None → close_fd fd pid k = Some (-1, k).
Proof.
  intros Hi. unfold close_fd. case_decide as Hfd; [|done].
  destruct (index_in_range MAX_FDS fd) as [i Hi']; [lia|congruence].
Qed.

Lemma svc_close_in_range (c : ctx_t) (k : kernel) e t i :
  executing k = Some e →
  index MAX_PROCS (pid (procTab k !!! e)) = Some t →
  index MAX_FDS (s32 (gpr0 c)) = Some i →
  releasable k i →
  ∃ k', hilevel_handler_svc c 9 k = Some (set_gpr0 0 c, k')
    ∧ refCount (openFileTab k' !!! i) = refCount (openFileTab k !!! i) - 1
    ∧ (∀ j, j ≠ i → openFileTab k' !!! j = openFileTab k !!! j)
    ∧ executing k' = Some e
    ∧ pid (procTab k' !!! e) = pid (procTab k !!! e)
    ∧ file (openFileTab k' !!! i) = file (openFileTab k !!! i)
    ∧ heap k' = heap_closed k i.
Proof.
  intros He Ht Hi Hrel. cbn [hilevel_handler_svc]. unfold svc_close.
  rewrite He. cbn [mbind option_bind].
  destruct (close_fd_in_range _ _ k _ _ Hi Ht Hrel)
    as (k' & -> & Hproc & Hopen & _ & _ & Hex & _ & _ & Hheap).
  cbn [mbind option_bind]. exists k'. split; [done|].
  rewrite Hproc, Hopen, Hex. split; [by rewrite vlookup_insert|].
  split; [by intros j Hj; rewrite vlookup_insert_ne|].
  split; [done|]. split; [|split; [by rewrite vlookup_insert|done]].
  destruct (decide (t = e)) as [->|Hne].
  - by rewrite vlookup_insert.
  - by rewrite vlookup_insert_ne.
Qed.

Lemma close_repeatedly_refCount fd n (c : ctx_t) (k : kernel) e t i :
  executing k = Some e →
  index MAX_PROCS (pid (procTab k !!! e)) = Some t →
  index MAX_FDS fd = Some i →
  - 2 ^ 31 ≤ fd < 2 ^ 31 →
  file (openFileTab k !!! i) = None →
  ∃ c' k', close_repeatedly fd n c k = Some (c', k')
    ∧ ((0 < n)%nat → gpr0 c' = 0)
    ∧ refCount (openFileTab k' !!! i)
      = refCount (openFileTab k !!! i) - Z.of_nat n.
Proof.
  intros He Ht Hi Hint. revert c k He Ht.
  induction n as [|n IH]; intros c k He Ht Hnull.
  - exists c, k. repeat split; [lia|]. rewrite Z.sub_0_r. done.
  - assert (index MAX_FDS (s32 (gpr0 (set_gpr0 fd c))) = Some i) as Hi'.
    { by rewrite gpr0_set_gpr0, s32_u32. }
    destruct (svc_close_in_range (set_gpr0 fd c) k e t i He Ht Hi')
      as (k' & Hk' & Hrc & Hother & He' & Hpid & Hfile & _).
    { intros _ a Ha. congruence. }
    cbn [close_repeatedly]. rewrite Hk'. cbn [mbind option_bind].
    destruct (IH (set_gpr0 0 (set_gpr0 fd c)) k') as (c'' & k'' & Hrun & Hret & Hrc').
    + done.
    + by rewrite Hpid.
    + congruence.
    + exists c'', k''. split; [done|]. split.
      * intros _. destruct n as [|n]; [|apply Hret; lia].
        cbn [close_repeatedly] in Hrun. simplify_eq.
        by rewrite gpr0_set_gpr0.
      * rewrite Hrc', Hrc. lia.
Qed.

(** C9: [close] returns 0 for every descriptor within [0, MAX_FDS),
    reserved, open or free, and decrements the reference count of the entry
    without a test, provided the entry does not point to a pipe that was
    released already when its count reaches zero or less (releasing it once
    more has no defined result); on an entry whose pointer is NULL, as for
    the reserved and the never opened ones, [n] calls in a row lower the
    count by [n], below zero once [n] exceeds it.  [-1] is returned exactly
    for the descriptors outside the range, and the kernel is then
    unchanged. *)
Theorem close_returns (c : ctx_t) (k : kernel) e t :
  executing k = Some e →
  index MAX_PROCS (pid (procTab k !!! e)) = Some t →
  let fd := s32 (gpr0 c) in
  (0 ≤ fd < Z.of_nat MAX_FDS →
     ∃ i, index MAX_FDS fd = Some i
       ∧ (releasable k i →
          ∃ k', hilevel_handler_svc c 9 k = Some (set_gpr0 0 c, k')
            ∧ refCount (openFileTab k' !!! i)
              = refCount (openFileTab k !!! i) - 1
            ∧ (∀ j, j ≠ i → openFileTab k' !!! j = openFileTab k !!! j))
       ∧ (file (openFileTab k !!! i) = None →
          ∀ n, ∃ c' k', close_repeatedly fd n c k = Some (c', k')
            ∧ ((0 < n)%nat → gpr0 c' = 0)
            ∧ refCount (openFileTab k' !!! i)
              = refCount (openFileTab k !!! i) - Z.of_nat n))
  ∧ (¬ (0 ≤ fd < Z.of_nat MAX_FDS) →
     hilevel_handler_svc c 9 k = Some (set_gpr0 (-1) c, k)
     ∧ s32 (gpr0 (set_gpr0 (-1) c)) = -1).
Proof.
  intros He Ht fd. split.
  - intros Hfd. destruct (index_in_range MAX_FDS fd Hfd) as [i Hi].
    exists i. split; [done|]. split.
    { intros Hrel.
      destruct (svc_close_in_range c k e t i He Ht Hi Hrel)
        as (k' & Hk' & Hrc & Hother & _).
      by exists k'. }
    intros Hnull n.
    apply (close_repeatedly_refCount fd n c k e t i); try done.
    apply s32_range.
  - intros Hfd. split; [|by rewrite gpr0_set_gpr0, s32_u32].
    cbn [hilevel_handler_svc]. unfold svc_close.
    rewrite He. cbn [mbind option_bind].
    rewrite close_fd_out_of_range; [done|].
    by apply index_out_of_range.
Qed.

End Close.

Lemma close_returns_witness :
  ∃ k', hilevel_handler_svc (set_gpr0 3 (fst demo_booted)) 9 (snd demo_booted)
        = Some (set_gpr0 0 (set_gpr0 3 (fst demo_booted)), k')
        ∧ refCount (openFileTab k' !!! 3%fin) = -1.
Proof.
  destruct (@close_returns demo (set_gpr0 3 (fst demo_booted)) (snd demo_booted)
              0%fin 0%fin) as [Hin _]; [by vm_compute|by vm_compute|].
  destruct Hin as (i & Hi & Hone & _); [by vm_compute|].
  assert (i = 3%fin) as -> by (vm_compute in Hi; congruence).
  destruct Hone as (k' & Hk' & Hrc & _).
  { intros _ a Ha. vm_compute in Ha. discriminate Ha. }
  exists k'. split; [exact Hk'|].
  etrans; [exact Hrc|]. by vm_compute.
Defined.

(** ** Frames *)

Section Frames.
Context `{P : Platform}.

Lemma proj_upd_pcb {A} (F : pcb_t → A) i f (k : kernel) j :
  F (procTab (upd_pcb i f k) !!! j)
  = if decide (j = i) then F (f (procTab k !!! i)) else F (procTab k !!! j).
Proof.
  rewrite procTab_upd_pcb. case_decide as Hj.
  - subst j. by rewrite vlookup_insert.
  - by rewrite vlookup_insert_ne.
Qed.

Lemma proj_upd_pcb_same {A} (F : pcb_t → A) i f (k : kernel) j :
  (∀ p, F (f p) = F p) →
  F (procTab (upd_pcb i f k) !!! j) = F (procTab k !!! j).
Proof. intros Hf. rewrite proj_upd_pcb. case_decide; [subst; apply Hf|done]. Qed.

Lemma only_output_refl (k : kernel) : only_output k k.
Proof. by repeat split. Qed.

Lemma only_output_putc a (k : kernel) : only_output k (PL011_putc a k).
Proof. by repeat split. Qed.

Lemma only_output_trans (k1 k2 k3 : kernel) :
  only_output k1 k2 → only_output k2 k3 → only_output k1 k3.
Proof.
  intros (?&?&?&?&?&?&?) (?&?&?&?&?&?&?). repeat split; congruence.
Qed.

Lemma only_output_print x n (k : kernel) : only_output k (print x n k).
Proof. repeat split; by kfields. Qed.

Lemma only_output_put_bytes m todo x (k : kernel) :
  only_output k (put_bytes m todo x k).
Proof. repeat split; by kfields. Qed.

Lemma only_output_printPID pid (k : kernel) : only_output k (printPID pid k).
Proof. repeat split; by kfields. Qed.

Lemma same_processes_refl (k : kernel) : same_processes k k.
Proof. by repeat split. Qed.

Lemma same_processes_trans (k1 k2 k3 : kernel) :
  same_processes k1 k2 → same_processes k2 k3 → same_processes k1 k3.
Proof.
  intros (?&?&?&H12) (?&?&?&H23). repeat split; try congruence.
  all: destruct (H12 j) as (?&?&?&?&?), (H23 j) as (?&?&?&?&?); congruence.
Qed.

Lemma same_processes_output (k k' : kernel) :
  only_output k k' → same_processes k k'.
Proof.
  intros (?&?&Hp&?&?&?&?). repeat split; try done; by rewrite Hp.
Qed.

Lemma same_processes_tables (k k' : kernel) :
  currentProcesses k' = currentProcesses k →
  executing k' = executing k →
  time k' = time k →
  procTab k' = procTab k →
  same_processes k k'.
Proof. intros ? ? ? Hp. repeat split; try done; by rewrite Hp. Qed.

Lemma same_processes_upd_pcb i f (k : kernel) :
  (∀ p, pid (f p) = pid p ∧ status (f p) = status p ∧ tos (f p) = tos p
        ∧ ctx (f p) = ctx p ∧ lastExec (f p) = lastExec p) →
  same_processes k (upd_pcb i f k).
Proof.
  intros Hf. repeat split; try done.
  all: rewrite proj_upd_pcb_same; [done|]; intros p; by destruct (Hf p) as (?&?&?&?&?).
Qed.

Lemma same_processes_open_fd p flg (k k' : kernel) r :
  open_fd p flg k = Some (r, k') → same_processes k k'.
Proof.
  unfold open_fd. destruct (vfindi _ 0 (openFileTab k)) as [fd|];
    [|intros [= <- <-]; apply same_processes_refl].
  kfields. destruct (executing k) as [e|] eqn:He; [|done].
  cbn [mbind option_bind]. intros [= <- <-].
  destruct (vfindi _ 0 (fdTab _)) as [s|].
  - eapply same_processes_trans; [|by apply same_processes_upd_pcb].
    by apply same_processes_tables.
  - by apply same_processes_tables.
Qed.

Lemma same_processes_close_fd fd pid (k k' : kernel) r :
  close_fd fd pid k = Some (r, k') → same_processes k k'.
Proof.
  unfold close_fd. case_decide; [|intros [= <- <-]; apply same_processes_refl].
  destruct (index MAX_FDS fd) as [i|]; [|done].
  destruct (index MAX_PROCS pid) as [t|]; [|done].
  cbn [mbind option_bind].
  match goal with |- context [free _ ?K] => set (k1 := K) end.
  assert (same_processes k k1) as Hk1.
  { unfold k1.
    match goal with |- same_processes k (upd_fd _ _ ?K) =>
      apply (same_processes_trans k K);
        [by apply same_processes_upd_pcb|by apply same_processes_tables]
    end. }
  destruct (if decide _ then _ else _) as [k2|] eqn:Hk2; [|done].
  cbn [mbind option_bind]. intros [= <- <-].
  eapply same_processes_trans; [exact Hk1|].
  case_decide; [|simplify_eq; apply same_processes_refl].
  apply free_frame in Hk2 as (? & ? & ? & _ & ? & _).
  by apply same_processes_tables.
Qed.

Lemma svc_default (c : ctx_t) (id : Z) (k : kernel) :
  ¬ (0 ≤ id ≤ 9) → hilevel_handler_svc c id k = Some (c, k).
Proof.
  intros Hid. destruct id as [|p|p]; [lia| |done].
  do 4 (destruct p as [p|p|]; try lia; try done).
Qed.

(** No call other than [yield], [fork], [exit] and [kill] changes the
    process counter, the executing process, the time or, in an entry of the
    process table, the pid, the status, the stack, the saved context or the
    time stamp. *)
Lemma svc_same_processes (c c' : ctx_t) (id : Z) (k k' : kernel) :
  id ≠ 0 → id ≠ 3 → id ≠ 4 → id ≠ 6 →
  hilevel_handler_svc c id k = Some (c', k') →
  same_processes k k'.
Proof.
  intros H0 H3 H4 H6 Hrun.
  destruct (decide (0 ≤ id ≤ 9)) as [Hid|Hid].
  2:{ rewrite svc_default in Hrun by done. simplify_eq.
      apply same_processes_refl. }
  assert (id = 1 ∨ id = 2 ∨ id = 5 ∨ id = 7 ∨ id = 8 ∨ id = 9)
    as [->|[->|[->|[->|[->| ->]]]]] by lia;
    cbn [hilevel_handler_svc] in Hrun.
  - (* write *)
    unfold svc_write in Hrun.
    repeat case_decide; simplify_eq;
      try (apply same_processes_output;
           first [apply only_output_print | apply only_output_refl
                 | apply only_output_put_bytes]).
    destruct (pipe_of_fd _ k) as [[a p]|]; [|done].
    cbn [mbind option_bind] in Hrun.
    destruct (write_loop _ _ _ _ _) as [[i p']|]; [|done].
    cbn [mbind option_bind] in Hrun. simplify_eq.
    by apply same_processes_tables.
  - (* read *)
    unfold svc_read in Hrun.
    repeat case_decide; simplify_eq;
      try (apply same_processes_output; apply only_output_print).
    destruct (pipe_of_fd _ k) as [[a p]|]; [|done].
    cbn [mbind option_bind] in Hrun.
    destruct (read_loop _ _ _ _ _) as [[[i m] p']|]; [|done].
    cbn [mbind option_bind] in Hrun. simplify_eq.
    by apply same_processes_tables.
  - (* exec *)
    unfold svc_exec in Hrun. kfields in Hrun.
    destruct (executing k); [|done]. cbn [mbind option_bind] in Hrun.
    simplify_eq. apply same_processes_output, only_output_putc.
  - (* nice *)
    unfold svc_nice in Hrun.
    destruct (index MAX_PROCS _) as [t|]; [|done].
    cbn [mbind option_bind] in Hrun. simplify_eq.
    eapply same_processes_trans;
      [apply same_processes_output, only_output_putc|].
    by apply same_processes_upd_pcb.
  - (* pipe *)
    unfold svc_pipe, malloc in Hrun.
    destruct (open_fd _ RDONLY _) as [[fd_read k1]|] eqn:Hr; [|done].
    cbn [mbind option_bind] in Hrun.
    destruct (open_fd _ WRONLY _) as [[fd_write k2]|] eqn:Hw; [|done].
    cbn [mbind option_bind] in Hrun.
    apply same_processes_open_fd in Hr, Hw.
    assert (same_processes k k2) as Hk2.
    { eapply same_processes_trans; [|exact Hw].
      eapply same_processes_trans; [|exact Hr].
      by apply same_processes_tables. }
    case_decide.
    + destruct (executing (print _ 12 k2)) as [e|]; [|done].
      cbn [mbind option_bind] in Hrun.
      set (kp := print _ 12 k2) in *.
      assert (same_processes k kp) as Hkp.
      { eapply same_processes_trans; [exact Hk2|].
        apply same_processes_output, only_output_print. }
      assert (∀ fd (ka kb : kernel),
                (if decide (0 ≤ fd)
                 then snd <$> close_fd fd (pid (procTab kp !!! e)) ka
                 else Some ka) = Some kb → same_processes ka kb) as Hclose.
      { intros fd ka kb. destruct (decide (0 ≤ fd)) as [Hfd|Hfd].
        - destruct (close_fd _ _ ka) as [[r kx]|] eqn:Hc; [|done].
          intros [= <-]. by eapply same_processes_close_fd.
        - intros [= <-]. apply same_processes_refl. }
      destruct (if decide (0 ≤ fd_read) then _ else _) as [k3|] eqn:H3';
        [|done].
      cbn [mbind option_bind] in Hrun.
      destruct (if decide (0 ≤ fd_write) then _ else _) as [k4|] eqn:H4';
        [|done].
      cbn [mbind option_bind] in Hrun. simplify_eq.
      apply Hclose in H3', H4'.
      eapply same_processes_trans; [exact Hkp|].
      eapply same_processes_trans; [exact H3'|exact H4'].
    + simplify_eq. eapply same_processes_trans; [exact Hk2|].
      by apply same_processes_tables.
  - (* close *)
    unfold svc_close in Hrun.
    destruct (executing k) as [e|]; [|done]. cbn [mbind option_bind] in Hrun.
    destruct (close_fd _ _ k) as [[r kx]|] eqn:Hc; [|done].
    cbn [mbind option_bind] in Hrun. simplify_eq.
    by eapply same_processes_close_fd.
Qed.

End Frames.

(** ** Kill *)

Section Kill.
Context `{P : Platform}.

Lemma seen_S (orig : vec Z MAX_FDS) (i : fin MAX_FDS) v :
  seen orig (S (fin_to_nat i)) v ↔ seen orig (fin_to_nat i) v ∨ orig !!! i = v.
Proof.
  split.
  - intros (m & Hm & Hv). destruct (decide (m = i)) as [->|Hne]; [by right|].
    left. exists m. split; [|done].
    assert (fin_to_nat m ≠ fin_to_nat i) by (intros ?%(inj fin_to_nat); done).
    lia.
  - intros [(m & Hm & Hv)|Hv].
    + exists m. split; [lia|done].
    + exists i. split; [lia|done].
Qed.

Lemma set_fdTab_fdTab (p : pcb_t) : set_fdTab (fdTab p) p = p.
Proof. by destruct p. Qed.

Lemma set_fdTab_set_fdTab v w (p : pcb_t) :
  set_fdTab v (set_fdTab w p) = set_fdTab v p.
Proof. done. Qed.

Lemma wiped_0 (orig : vec Z MAX_FDS) : vmap (wiped orig 0) orig = orig.
Proof.
  apply vec_eq. intros l. rewrite vlookup_map. unfold wiped.
  rewrite decide_False; [done|]. intros (_ & m & Hm & _). lia.
Qed.

Lemma wiped_cases (orig : vec Z MAX_FDS) n v :
  (wiped orig n v = -1 ∧ 0 ≤ v < Z.of_nat MAX_FDS ∧ seen orig n v)
  ∨ (wiped orig n v = v ∧ ¬ (0 ≤ v < Z.of_nat MAX_FDS ∧ seen orig n v)).
Proof. unfold wiped. case_decide as H; [left|right]; tauto. Qed.

Lemma seen_0 (orig : vec Z MAX_FDS) v : ¬ seen orig 0 v.
Proof. intros (m & Hm & _). lia. Qed.

Lemma kill_inv_start (k : kernel) t : kill_inv k t 0 k.
Proof.
  unfold kill_inv. rewrite wiped_0, set_fdTab_fdTab, vlookup_insert_self.
  split; [done|]. split; [done|]. split; [done|]. split; [done|].
  split; [done|]. split; [done|]. split.
  - intros j. split; [done|]. split; [done|].
    rewrite decide_False by apply seen_0. lia.
  - intros a. rewrite decide_False; [done|].
    intros (j & [Hs _] & _). by apply seen_0 in Hs.
Qed.

(** An iteration on a slot whose descriptor is out of range or was come
    across before changes nothing. *)
Lemma wiped_S_same (orig : vec Z MAX_FDS) (i : fin MAX_FDS) v :
  ¬ (0 ≤ orig !!! i < Z.of_nat MAX_FDS ∧ ¬ seen orig (fin_to_nat i) (orig !!! i)) →
  wiped orig (S (fin_to_nat i)) v = wiped orig (fin_to_nat i) v.
Proof.
  intros Hskip. unfold wiped.
  destruct (decide (0 ≤ v < Z.of_nat MAX_FDS ∧ seen orig (S (fin_to_nat i)) v))
    as [[Hr Hs]|HnS];
  destruct (decide (0 ≤ v < Z.of_nat MAX_FDS ∧ seen orig (fin_to_nat i) v))
    as [[Hr' Hs']|Hn]; try done.
  - exfalso. apply seen_S in Hs as [Hs|Hs]; [by apply Hn|].
    subst v. apply Hskip. split; [done|]. intros Hs. by apply Hn.
  - exfalso. apply HnS. split; [done|]. apply seen_S. by left.
Qed.

Lemma seen_S_same (orig : vec Z MAX_FDS) (i : fin MAX_FDS) (j : fin MAX_FDS) :
  ¬ (0 ≤ orig !!! i < Z.of_nat MAX_FDS ∧ ¬ seen orig (fin_to_nat i) (orig !!! i)) →
  seen orig (S (fin_to_nat i)) (fin_to_Z j) ↔ seen orig (fin_to_nat i) (fin_to_Z j).
Proof.
  intros Hskip. rewrite seen_S. split; [|by left].
  intros [Hs|Hs]; [done|].
  destruct (decide (seen orig (fin_to_nat i) (fin_to_Z j))) as [|Hn]; [done|].
  exfalso. apply Hskip. rewrite Hs. split; [apply fin_to_Z_range|done].
Qed.

Lemma kill_inv_skip (k0 k1 : kernel) t (i : fin MAX_FDS) :
  let orig := fdTab (procTab k0 !!! t) in
  ¬ (0 ≤ orig !!! i < Z.of_nat MAX_FDS ∧ ¬ seen orig (fin_to_nat i) (orig !!! i)) →
  kill_inv k0 t (fin_to_nat i) k1 →
  kill_inv k0 t (S (fin_to_nat i)) k1.
Proof.
  intros orig Hskip (Hex & Htime & Hmem & Huart & Hcp & Hproc & Hopen & Hheap).
  unfold kill_inv. fold orig in Hproc, Hopen |- *.
  split; [done|]. split; [done|]. split; [done|]. split; [done|].
  split; [done|]. split; [|split].
  - rewrite Hproc. do 2 f_equal. apply vec_eq. intros l.
    rewrite !vlookup_map. symmetry. by apply wiped_S_same.
  - intros j. destruct (Hopen j) as (Hfile & Hflag & Hrc).
    split; [done|]. split; [done|]. rewrite Hrc.
    pose proof (seen_S_same orig i j Hskip).
    repeat case_decide; tauto || lia.
  - intros a. rewrite Hheap.
    assert (released k0 orig (S (fin_to_nat i)) a
            ↔ released k0 orig (fin_to_nat i) a) as Hsame.
    { unfold released, dropped. split; intros (j & [Hs Hrc] & Hf); exists j;
        (split; [split; [|done]|done]); by apply (seen_S_same orig i j Hskip). }
    repeat case_decide; tauto || done.
Qed.

Lemma seen_mono (orig : vec Z MAX_FDS) n v :
  (n ≤ MAX_FDS)%nat → seen orig n v → seen orig MAX_FDS v.
Proof. intros Hn (m & Hm & Hv). exists m. split; [lia|done]. Qed.

Lemma kill_inv_step pid (k0 k1 : kernel) t (i : fin MAX_FDS) :
  index MAX_PROCS pid = Some t →
  release_once k0 (fdTab (procTab k0 !!! t)) →
  kill_inv k0 t (fin_to_nat i) k1 →
  ∃ k2, close_step pid i k1 = Some k2 ∧ kill_inv k0 t (S (fin_to_nat i)) k2.
Proof.
  intros Ht Honce Hinv.
  pose proof Hinv as (Hex & Htime & Hmem & Huart & Hcp & Hproc & Hopen & Hheap).
  set (orig := fdTab (procTab k0 !!! t)) in *.
  unfold close_step. rewrite Ht. cbn [mbind option_bind].
  assert (fdTab (procTab k1 !!! t) !!! i = wiped orig (fin_to_nat i) (orig !!! i))
    as Hcur.
  { rewrite Hproc, vlookup_insert. cbn [fdTab set_fdTab]. by rewrite vlookup_map. }
  rewrite Hcur.
  destruct (wiped_cases orig (fin_to_nat i) (orig !!! i))
    as [(Hw & Hr & Hs)|(Hw & Hn)]; rewrite Hw.
  { (* closed before through an earlier slot *)
    rewrite decide_False by lia. exists k1. split; [done|].
    apply kill_inv_skip; [|done]. fold orig. tauto. }
  destruct (decide (0 ≤ orig !!! i)) as [Hpos|Hneg].
  2:{ (* an unused slot *)
    exists k1. split; [done|]. apply kill_inv_skip; [|done]. fold orig. lia. }
  destruct (index MAX_FDS (orig !!! i)) as [j0|] eqn:Hj0.
  2:{ (* a descriptor out of range: close_fd returns -1 *)
    rewrite close_fd_out_of_range by done. exists k1. split; [done|].
    apply kill_inv_skip; [|done]. fold orig. intros [Hr _].
    destruct (index_in_range _ _ Hr). congruence. }
  (* the first slot that holds this descriptor *)
  pose proof (proj1 (index_Some _ _ _) Hj0) as Hj0'.
  pose proof (fin_to_Z_range _ j0) as Hj0r.
  pose proof (fin_to_nat_lt i) as Hilt.
  assert (¬ seen orig (fin_to_nat i) (orig !!! i)) as Hfirst.
  { intros Hs. apply Hn. split; [lia|done]. }
  destruct (Hopen j0) as (Hfile0 & Hflag0 & Hrc0).
  rewrite decide_False in Hrc0 by (by rewrite Hj0').
  rewrite Z.sub_0_r in Hrc0.
  assert (seen orig MAX_FDS (fin_to_Z j0)) as Hseen0.
  { exists i. split; [done|]. by rewrite Hj0'. }
  assert (∀ a, file (openFileTab k0 !!! j0) = Some a →
               refCount (openFileTab k0 !!! j0) ≤ 1 →
               is_Some (heap k0 !! a) ∧ ¬ released k0 orig (fin_to_nat i) a)
    as Hlive.
  { intros a Ha Hrc. destruct (Honce j0 a) as [Hl Huniq]; [by split|done|].
    split; [done|]. intros (j' & [Hs' Hrc'] & Hf').
    assert (j' = j0) as ->.
    { apply Huniq; [|done]. split; [|done]. apply (seen_mono orig (fin_to_nat i)); [lia|done]. }
    apply Hfirst. by rewrite <- Hj0'. }
  destruct (close_fd_in_range _ pid k1 _ _ Hj0 Ht)
    as (k2 & -> & Hproc2 & Hopen2 & Hcp2 & Htime2 & Hex2 & Hmem2 & Huart2 & Hheap2).
  { intros Hrc a Ha. rewrite Hfile0 in Ha. rewrite Hrc0 in Hrc.
    destruct (Hlive a Ha) as [Hl Hnr]; [lia|].
    by rewrite Hheap, decide_False. }
  exists k2. split; [done|]. unfold kill_inv. fold orig.
  rewrite Hex2, Htime2, Hmem2, Huart2, Hcp2.
  split; [done|]. split; [done|]. split; [done|]. split; [done|].
  split; [done|]. split; [|split].
  - rewrite Hproc2, Hproc, vlookup_insert, vinsert_vinsert.
    rewrite set_fdTab_set_fdTab. cbn [fdTab set_fdTab]. do 2 f_equal.
    apply vec_eq. intros l. rewrite !vlookup_map.
    destruct (wiped_cases orig (fin_to_nat i) (orig !!! l))
      as [(Hwl & Hrl & Hsl)|(Hwl & Hnl)]; rewrite Hwl.
    + rewrite decide_False by lia. unfold wiped.
      rewrite decide_True; [done|]. split; [done|]. apply seen_S. by left.
    + unfold wiped. case_decide as Heq.
      * rewrite decide_True; [done|]. split; [lia|].
        apply seen_S. by right.
      * rewrite decide_False; [done|].
        intros (Hrl & [Hsl|Hsl]%seen_S); [by apply Hnl|congruence].
  - intros j. destruct (Hopen j) as (Hfile & Hflag & Hrc).
    rewrite Hopen2. destruct (decide (j = j0)) as [->|Hne].
    + rewrite vlookup_insert. cbn [file flag refCount].
      split; [done|]. split; [done|]. rewrite Hrc0.
      rewrite decide_True; [lia|]. apply seen_S. by right.
    + rewrite vlookup_insert_ne by done.
      split; [done|]. split; [done|]. rewrite Hrc.
      assert (orig !!! i ≠ fin_to_Z j).
      { intros Heq. apply Hne, fin_to_Z_inj. congruence. }
      pose proof (seen_S orig i (fin_to_Z j)).
      repeat case_decide; tauto || lia.
  - (* the store *)
    assert (∀ a, released k0 orig (S (fin_to_nat i)) a
                 ↔ released k0 orig (fin_to_nat i) a
                   ∨ (refCount (openFileTab k0 !!! j0) ≤ 1
                      ∧ file (openFileTab k0 !!! j0) = Some a)) as Hrel.
    { intros a. unfold released, dropped. split.
      - intros (j & [[Hs|Hs]%seen_S Hrc] & Hf).
        + left. by exists j.
        + right. assert (j = j0) as -> by (apply fin_to_Z_inj; congruence).
          done.
      - intros [(j & [Hs Hrc] & Hf)|[Hrc Hf]].
        + exists j. split; [split; [|done]|done]. apply seen_S. by left.
        + exists j0. split; [split; [|done]|done]. apply seen_S. right.
          by rewrite Hj0'. }
    intros a. rewrite Hheap2. unfold heap_closed. rewrite Hrc0, Hfile0.
    specialize (Hrel a).
    destruct (decide (refCount (openFileTab k0 !!! j0) ≤ 1)) as [Hrc|Hrc].
    + destruct (file (openFileTab k0 !!! j0)) as [a0|] eqn:Ha0.
      * destruct (decide (a0 = a)) as [->|Hne].
        -- rewrite lookup_delete_eq. rewrite decide_True; [done|].
           apply Hrel. by right.
        -- rewrite lookup_delete_ne by done. rewrite Hheap.
           repeat case_decide; try done.
           ++ exfalso. tauto.
           ++ exfalso. destruct Hrel as [[?|[_ ?]] _]; [done|done|congruence].
      * rewrite Hheap. repeat case_decide; try done.
        -- exfalso. tauto.
        -- exfalso. destruct Hrel as [[?|[_ ?]] _]; done.
    + rewrite Hheap. repeat case_decide; try done.
      * exfalso. tauto.
      * exfalso. destruct Hrel as [[?|[? _]] _]; done.
Qed.

Lemma kill_loop pid (k : kernel) t :
  index MAX_PROCS pid = Some t →
  release_once k (fdTab (procTab k !!! t)) →
  ∃ k1, fin_for MAX_FDS (close_step pid) k = Some k1
        ∧ kill_inv k t MAX_FDS k1.
Proof.
  intros Ht Honce. apply (fin_for_rule (kill_inv k t)).
  - apply kill_inv_start.
  - intros i k1 Hinv. by apply kill_inv_step.
Qed.

Lemma seen_all (orig : vec Z MAX_FDS) v :
  seen orig MAX_FDS v ↔ ∃ l, orig !!! l = v.
Proof.
  split.
  - intros (m & _ & Hm). by exists m.
  - intros (l & Hl). exists l. split; [apply fin_to_nat_lt|done].
Qed.

Lemma quiet_same_processes (k k' : kernel) :
  quiet k k' → same_processes k k'.
Proof.
  induction 1 as [k|k k1 k2 c c' id _ IH H0 H3 H4 H6 Hrun].
  - apply same_processes_refl.
  - eapply same_processes_trans; [exact IH|].
    by apply (svc_same_processes c c' id).
Qed.

(** C10, amended: [kill] on a [pid] that designates an entry of the process
    table, when every pipe that it releases is live and released once, does
    not run the scheduler and leaves [executing], [time], the user memory
    and every other entry of the process table alone.  In the target it
    resets the descriptor slots that hold a descriptor within range and
    sets the status to TERMINATED; every open file entry held by the target
    loses one reference and keeps its pointer and flag, and the pipe of
    every such entry whose count was at most 1 is released, whoever else
    points to it, all other pipes staying as they are; [currentProcesses]
    goes down by one, [K] is printed and the caller gets 0 in [gpr[0]].  A
    caller that kills itself is the executing process with status
    TERMINATED when [kill] returns and along every run of later calls none
    of which is [yield], [fork], [exit] or [kill]. *)
Theorem kill_frame (c : ctx_t) (k : kernel) (t : fin MAX_PROCS) :
  index MAX_PROCS (s32 (gpr0 c)) = Some t →
  let orig := fdTab (procTab k !!! t) in
  release_once k orig →
  ∃ k', hilevel_handler_svc c 6 k = Some (set_gpr0 0 c, k')
    ∧ executing k' = executing k
    ∧ time k' = time k
    ∧ mem k' = mem k
    ∧ uart k' = uart k +:+ "K"
    ∧ currentProcesses k' = currentProcesses k - 1
    ∧ (∀ j, j ≠ t → procTab k' !!! j = procTab k !!! j)
    ∧ procTab k' !!! t =
        set_status STATUS_TERMINATED
          (set_fdTab
             (vmap (λ fd, if decide (0 ≤ fd < Z.of_nat MAX_FDS) then -1 else fd) orig)
             (procTab k !!! t))
    ∧ (∀ j, file (openFileTab k' !!! j) = file (openFileTab k !!! j)
          ∧ flag (openFileTab k' !!! j) = flag (openFileTab k !!! j)
          ∧ refCount (openFileTab k' !!! j)
            = refCount (openFileTab k !!! j)
              - (if decide (∃ l, orig !!! l = fin_to_Z j) then 1 else 0))
    ∧ (∀ a, heap k' !! a
            = if decide (released k orig MAX_FDS a) then None else heap k !! a)
    ∧ (executing k = Some t →
       ∀ k2, quiet k' k2 →
         executing k2 = Some t
         ∧ status (procTab k2 !!! t) = STATUS_TERMINATED).
Proof.
  intros Ht orig Honce. cbn [hilevel_handler_svc]. unfold svc_kill.
  destruct (kill_loop (s32 (gpr0 c)) (PL011_putc "K" k) t Ht Honce)
    as (k1 & -> & Hex & Htime & Hmem & Huart & Hcp & Hproc & Hopen & Hheap).
  cbn [mbind option_bind]. rewrite Ht. cbn [mbind option_bind].
  cbn [PL011_putc set_uart executing time mem uart currentProcesses procTab
       openFileTab heap] in Hex, Htime, Hmem, Huart, Hcp, Hproc, Hopen, Hheap.
  change (released (set_uart _ k)) with (released k) in Hheap.
  fold orig in Hproc, Hopen, Hheap.
  set (k' := set_currentProcesses _ _).
  assert (executing k' = executing k) as Hex' by (unfold k'; by kfields).
  assert (procTab k' !!! t =
          set_status STATUS_TERMINATED
            (set_fdTab
               (vmap (λ fd, if decide (0 ≤ fd < Z.of_nat MAX_FDS) then -1 else fd)
                  orig)
               (procTab k !!! t))) as Htarget.
  { unfold k'. kfields. rewrite Hproc, vlookup_insert. do 2 f_equal.
    apply vec_eq. intros l. rewrite !vlookup_map. unfold wiped.
    repeat case_decide; try done.
    + tauto.
    + exfalso. apply H. split; [done|]. apply seen_all. by exists l. }
  exists k'. split; [done|]. split; [done|].
  split; [unfold k'; by kfields|]. split; [unfold k'; by kfields|].
  split; [unfold k'; by kfields|].
  split; [unfold k'; kfields; lia|].
  split.
  { intros j Hj. unfold k'. kfields. rewrite procTab_upd_pcb_ne by done.
    rewrite Hproc. by rewrite vlookup_insert_ne. }
  split; [done|]. split.
  { intros j. unfold k'. kfields. destruct (Hopen j) as (Hfile & Hflag & Hrc).
    split; [done|]. split; [done|]. rewrite Hrc.
    pose proof (seen_all orig (fin_to_Z j)).
    repeat case_decide; tauto || lia. }
  split; [intros a; unfold k'; kfields; apply Hheap|].
  intros He k2 Hquiet.
  apply quiet_same_processes in Hquiet as (_ & Hex2 & _ & Hsame).
  destruct (Hsame t) as (_ & Hst & _).
  split; [congruence|]. by rewrite Hst, Htarget.
Qed.

End Kill.

Lemma fin8_cases (Q : fin 8 → Prop) :
  Q 0%fin → Q 1%fin → Q 2%fin → Q 3%fin → Q 4%fin → Q 5%fin → Q 6%fin →
  Q 7%fin → ∀ i, Q i.
Proof.
  intros H0 H1 H2 H3 H4 H5 H6 H7 i.
  pose proof (nat_index_fin 8 i) as Hi. pose proof (fin_to_nat_lt i) as Hlt.
  destruct (fin_to_nat i) as [|[|[|[|[|[|[|[|n]]]]]]]]; simpl in Hi;
    simplify_eq; done || lia.
Qed.

(** On the demo platform, with the console and its child holding both ends
    of one pipe at two references each, the loop of [kill] on the console
    releases nothing. *)
Lemma demo_shared_once :
  release_once (snd demo_shared) (fdTab (procTab (snd demo_shared) !!! demo_slot0)).
Proof.
  assert (∀ j, ¬ dropped (snd demo_shared)
                 (fdTab (procTab (snd demo_shared) !!! demo_slot0))
                 (@MAX_FDS demo) j) as Hnone.
  { apply fin8_cases; by_decide. }
  intros j a Hj. by apply Hnone in Hj.
Qed.

(** Once the console has closed its read end, the loop of [kill] on the
    child releases the pipe, through descriptor 3 alone. *)
Lemma demo_half_once :
  release_once (snd demo_half) (fdTab (procTab (snd demo_half) !!! demo_slot1)).
Proof.
  assert (∀ j, dropped (snd demo_half)
                 (fdTab (procTab (snd demo_half) !!! demo_slot1))
                 (@MAX_FDS demo) j → j = demo_fd3) as Honly.
  { apply (fin8_cases (λ j, @dropped demo _ _ _ j → j = demo_fd3)); intros Hj;
      try reflexivity; exfalso; revert Hj; by_decide. }
  intros j a Hj Ha. apply Honly in Hj as ->. split.
  - assert (a = 1%positive) as ->
      by (vm_compute in Ha; by injection Ha as <-).
    by_decide.
  - intros j' Hj' _. by apply Honly.
Qed.

Lemma kill_frame_witness :
  (∃ k' : @kernel demo,
     hilevel_handler_svc (with_args 0 0 0 (fst demo_shared)) 6 (snd demo_shared)
     = Some (set_gpr0 0 (with_args 0 0 0 (fst demo_shared)), k')
     ∧ executing k' = Some demo_slot0
     ∧ @status demo (procTab k' !!! demo_slot0) = STATUS_TERMINATED
     ∧ @fdTab demo (procTab k' !!! demo_slot0) !!! 0%fin = -1
     ∧ refCount (openFileTab k' !!! demo_fd3) = 1
     ∧ heap k' !! 1%positive = heap (snd demo_shared) !! 1%positive)
  ∧ (∃ k' : @kernel demo,
       hilevel_handler_svc (with_args 1 0 0 (fst demo_half)) 6 (snd demo_half)
       = Some (set_gpr0 0 (with_args 1 0 0 (fst demo_half)), k')
       ∧ heap k' !! 1%positive = None
       ∧ refCount (openFileTab k' !!! demo_fd3) = 0
       ∧ refCount (openFileTab k' !!! demo_fd4) = 1).
Proof.
  split.
  - destruct (@kill_frame demo (with_args 0 0 0 (fst demo_shared))
                (snd demo_shared) demo_slot0)
      as (k' & Hk' & Hex & _ & _ & _ & _ & _ & Ht & Hopen & Hheap & Hself);
      [by_eval|exact demo_shared_once|].
    exists k'. split; [exact Hk'|].
    destruct (Hself ltac:(by_eval) k' (quiet_refl k')) as [Hex' Hst'].
    split; [exact Hex'|]. split; [exact Hst'|]. split.
    { etrans; [exact (f_equal (λ p, fdTab p !!! 0%fin) Ht)|]. by_eval. }
    split.
    { destruct (Hopen demo_fd3) as (_ & _ & Hrc). etrans; [exact Hrc|].
      by_eval. }
    etrans; [apply Hheap|]. apply decide_False.
    by_decide.
  - destruct (@kill_frame demo (with_args 1 0 0 (fst demo_half))
                (snd demo_half) demo_slot1)
      as (k' & Hk' & _ & _ & _ & _ & _ & _ & _ & Hopen & Hheap & _);
      [by_eval|exact demo_half_once|].
    exists k'. split; [exact Hk'|]. split.
    { etrans; [apply Hheap|]. apply decide_True.
      by_decide. }
    split.
    + destruct (Hopen demo_fd3) as (_ & _ & Hrc). etrans; [exact Hrc|].
      by_eval.
    + destruct (Hopen demo_fd4) as (_ & _ & Hrc). etrans; [exact Hrc|].
      by_eval.
Defined.

(** C10 as stated fails on three counts.  With the console and its child
    sharing a pipe and the console's read end closed, [kill] of the child
    releases the pipe that the console's descriptor 4 still designates;
    for the pid 4, outside the table of the demo platform, [kill] has no
    defined result; and a child that has killed itself becomes READY by a
    fork of its own, without any scheduling trap. *)
Lemma kill_frame_fails :
  (∃ c' (k' : @kernel demo),
     hilevel_handler_svc (with_args 1 0 0 (fst demo_half)) 6 (snd demo_half)
     = Some (c', k')
     ∧ @fdTab demo (procTab (snd demo_half) !!! demo_slot0) !!! 1%fin = 4
     ∧ file (openFileTab (snd demo_half) !!! demo_fd4) = Some 1%positive
     ∧ is_Some (heap (snd demo_half) !! 1%positive)
     ∧ @fdTab demo (procTab k' !!! demo_slot0) !!! 1%fin = 4
     ∧ file (openFileTab k' !!! demo_fd4) = Some 1%positive
     ∧ refCount (openFileTab k' !!! demo_fd4) = 1
     ∧ heap k' !! 1%positive = None)
  ∧ hilevel_handler_svc (with_args 4 0 0 (fst demo_booted)) 6 (snd demo_booted)
    = None
  ∧ (∃ c' (k' : @kernel demo),
       hilevel_handler_svc (fst demo_zombie) 3 (snd demo_zombie) = Some (c', k')
       ∧ executing (snd demo_zombie) = Some demo_slot1
       ∧ @status demo (procTab (snd demo_zombie) !!! demo_slot1)
         = STATUS_TERMINATED
       ∧ executing k' = Some demo_slot1
       ∧ time k' = time (snd demo_zombie)
       ∧ @status demo (procTab k' !!! demo_slot1) = STATUS_READY).
Proof.
  split; [|split].
  - assert (observe (λ _ k', (@fdTab demo (procTab k' !!! demo_slot0) !!! 1%fin,
                              file (openFileTab k' !!! demo_fd4),
                              refCount (openFileTab k' !!! demo_fd4),
                              heap k' !! 1%positive))
              (hilevel_handler_svc (with_args 1 0 0 (fst demo_half)) 6
                 (snd demo_half))
            = Some (4, Some 1%positive, 1, None)) as Hrun by by_eval.
    destruct (hilevel_handler_svc _ _ _) as [[c' k']|]; [|discriminate Hrun].
    injection Hrun as Hfd Hfile Hrc Hheap. exists c', k'.
    split; [reflexivity|]. split; [by_eval|]. split; [by_eval|].
    split; [by_decide|].
    split; [exact Hfd|]. split; [exact Hfile|]. split; [exact Hrc|exact Hheap].
  - by_eval.
  - assert (observe (λ _ k', (executing k', time k',
                              @status demo (procTab k' !!! demo_slot1)))
              (hilevel_handler_svc (fst demo_zombie) 3 (snd demo_zombie))
            = Some (Some demo_slot1, 1, STATUS_READY))
      as Hrun by by_eval.
    destruct (hilevel_handler_svc _ _ _) as [[c' k']|]; [|discriminate Hrun].
    injection Hrun as Hex Htime Hst. exists c', k'.
    split; [reflexivity|]. split; [by_eval|]. split; [by_eval|].
    split; [exact Hex|]. split; [|exact Hst].
    etrans; [exact Htime|]. by_eval.
Qed.

(** ** Fork *)

Section Fork.
Context `{P : Platform}.

Lemma fork_inv_start (k : kernel) e n : fork_inv k e n 0 k.
Proof.
  unfold fork_inv. repeat split; try done.
  exists (fdTab (procTab k !!! n)). split.
  - by rewrite set_fdTab_fdTab, vlookup_insert_self.
  - intros l. rewrite decide_False by lia. done.
Qed.

Lemma fork_inv_step (k0 k1 : kernel) e n (i : fin MAX_FDS) :
  executing k0 = Some e →
  fdTab (procTab k0 !!! e) !!! i < Z.of_nat MAX_FDS →
  fork_inv k0 e n (fin_to_nat i) k1 →
  ∃ k2, fork_fd_step n i k1 = Some k2 ∧ fork_inv k0 e n (S (fin_to_nat i)) k2.
Proof.
  intros He Hr (Hex & Htime & Hmem & Huart & Hheap & Hcp & F & Hproc & HF).
  unfold fork_fd_step. rewrite Hex, He. cbn [mbind option_bind].
  assert (fdTab (procTab k1 !!! e) !!! i = fdTab (procTab k0 !!! e) !!! i) as Hcur.
  { rewrite Hproc. destruct (decide (n = e)) as [->|Hne].
    - rewrite vlookup_insert. cbn [fdTab set_fdTab]. rewrite HF.
      by rewrite decide_False by lia.
    - by rewrite vlookup_insert_ne. }
  rewrite Hcur. set (fd := fdTab (procTab k0 !!! e) !!! i) in *.
  assert (fork_inv k0 e n (S (fin_to_nat i))
            (upd_pcb n (λ p, set_fdTab (vinsert i fd (fdTab p)) p) k1)) as Hinv.
  { unfold fork_inv. kfields. repeat split; try done.
    exists (vinsert i fd F). split.
    - rewrite procTab_upd_pcb, Hproc, vlookup_insert, vinsert_vinsert. done.
    - intros l. destruct (decide (i = l)) as [<-|Hne].
      + rewrite vlookup_insert. by rewrite decide_True by lia.
      + rewrite vlookup_insert_ne by done. rewrite HF.
        assert (fin_to_nat l ≠ fin_to_nat i) by (intros ?%(inj fin_to_nat); done).
        repeat case_decide; done || lia. }
  case_decide as Hpos.
  - destruct (index_in_range MAX_FDS fd) as [j Hj]; [lia|].
    rewrite Hj. cbn [mbind option_bind]. eexists. split; [done|].
    destruct Hinv as (? & ? & ? & ? & ? & ? & ?). unfold fork_inv. kfields.
    repeat split; done.
  - eexists. split; [done|]. done.
Qed.

Lemma fork_loop (k : kernel) e n :
  executing k = Some e →
  (∀ i, fdTab (procTab k !!! e) !!! i < Z.of_nat MAX_FDS) →
  ∃ k1, fin_for MAX_FDS (fork_fd_step n) k = Some k1
        ∧ fork_inv k e n MAX_FDS k1.
Proof.
  intros He Hr. apply (fin_for_rule (fork_inv k e n)).
  - apply fork_inv_start.
  - intros i k1 Hinv. by apply fork_inv_step.
Qed.

Lemma count_fd_app v (l1 l2 : list Z) :
  count_fd v (l1 ++ l2) = count_fd v l1 + count_fd v l2.
Proof. induction l1 as [|x l1 IH]; cbn [count_fd app]; [done|]. rewrite IH. lia. Qed.

Lemma count_fd_take_S {n} v (t : vec Z n) (i : fin n) :
  count_fd v (take (S (fin_to_nat i)) (vec_to_list t))
  = count_fd v (take (fin_to_nat i) (vec_to_list t))
    + (if decide (t !!! i = v) then 1 else 0).
Proof.
  rewrite (take_S_r _ _ (t !!! i)) by (by rewrite <- vlookup_lookup).
  rewrite count_fd_app. cbn [count_fd]. lia.
Qed.

Lemma shares_start (k : kernel) e : shares k e 0 k.
Proof. intros j. cbn [take count_fd]. by rewrite Z.add_0_r. Qed.

Lemma shares_step (k0 k1 k2 : kernel) e n (i : fin MAX_FDS) :
  executing k0 = Some e →
  fork_inv k0 e n (fin_to_nat i) k1 →
  shares k0 e (fin_to_nat i) k1 →
  fork_fd_step n i k1 = Some k2 →
  shares k0 e (S (fin_to_nat i)) k2.
Proof.
  intros He (Hex & _ & _ & _ & _ & _ & F & Hproc & HF) Hsh.
  unfold fork_fd_step. rewrite Hex, He. cbn [mbind option_bind].
  assert (fdTab (procTab k1 !!! e) !!! i = fdTab (procTab k0 !!! e) !!! i) as ->.
  { rewrite Hproc. destruct (decide (n = e)) as [->|Hne].
    - rewrite vlookup_insert. cbn [fdTab set_fdTab]. rewrite HF.
      by rewrite decide_False by lia.
    - by rewrite vlookup_insert_ne. }
  set (fd := fdTab (procTab k0 !!! e) !!! i).
  intros Hstep j. rewrite count_fd_take_S. fold fd.
  destruct (Hsh j) as (Hfile & Hflag & Hrc).
  pose proof (fin_to_Z_range _ j) as Hj.
  case_decide as Hpos.
  - destruct (index MAX_FDS fd) as [j'|] eqn:Hj'; [|done].
    cbn [mbind option_bind] in Hstep. simplify_eq.
    apply index_Some in Hj'. kfields.
    destruct (decide (j' = j)) as [->|Hne].
    + rewrite openFileTab_upd_fd_eq. kfields.
      rewrite decide_True by done. rewrite Hfile, Hflag, Hrc.
      repeat split; lia.
    + rewrite openFileTab_upd_fd_ne by done. kfields.
      rewrite decide_False; [by rewrite Hfile, Hflag, Hrc, Z.add_0_r|].
      intros Heq. apply Hne, fin_to_Z_inj. lia.
  - simplify_eq. kfields. rewrite decide_False by lia.
    by rewrite Hfile, Hflag, Hrc, Z.add_0_r.
Qed.

Lemma fork_loop_shares (k : kernel) e n :
  executing k = Some e →
  (∀ i, fdTab (procTab k !!! e) !!! i < Z.of_nat MAX_FDS) →
  ∃ k1, fin_for MAX_FDS (fork_fd_step n) k = Some k1
        ∧ fork_inv k e n MAX_FDS k1
        ∧ ∀ j, file (openFileTab k1 !!! j) = file (openFileTab k !!! j)
             ∧ flag (openFileTab k1 !!! j) = flag (openFileTab k !!! j)
             ∧ refCount (openFileTab k1 !!! j)
               = refCount (openFileTab k !!! j)
                 + count_fd (fin_to_Z j) (vec_to_list (fdTab (procTab k !!! e))).
Proof.
  intros He Hr.
  destruct (fin_for_rule (λ i k1, fork_inv k e n i k1 ∧ shares k e i k1)
              MAX_FDS (fork_fd_step n) k) as (k1 & Hrun & Hinv & Hsh).
  - split; [apply fork_inv_start|apply shares_start].
  - intros i k1 [Hinv Hsh].
    destruct (fork_inv_step k k1 e n i He (Hr i) Hinv) as (k2 & Hk2 & Hinv2).
    exists k2. split; [done|]. split; [done|].
    by apply (shares_step k k1 k2 e n i).
  - exists k1. split; [done|]. split; [done|].
    intros j. destruct (Hsh j) as (? & ? & Hrc). split; [done|]. split; [done|].
    rewrite Hrc. by rewrite take_ge by (by rewrite length_vec_to_list).
Qed.

Lemma fork_slot_spec (k : kernel) n :
  fork_slot k = Some n →
  lowest_terminated k n
  ∨ ((∀ j, (1 ≤ fin_to_nat j)%nat → status (procTab k !!! j) ≠ STATUS_TERMINATED)
     ∧ fin_to_Z n = currentProcesses k).
Proof.
  unfold fork_slot, find_terminated.
  destruct (vfindi _ 0 (procTab k)) as [m|] eqn:Hfind.
  - rewrite index_fin. intros [= ->]. left.
    apply vfindi_Some_iff in Hfind as [Hm Hlow].
    apply andb_true_iff in Hm as [H1 Hst].
    apply bool_decide_eq_true in H1, Hst.
    split; [lia|]. split; [done|]. intros j Hj Hlt Hterm.
    specialize (Hlow j Hlt). rewrite Nat.add_0_l in Hlow.
    apply andb_false_iff in Hlow as [Hf|Hf]; apply bool_decide_eq_false in Hf;
      done || lia.
  - intros Hn. right. split; [|by apply index_Some in Hn].
    intros j Hj Hterm.
    pose proof (proj1 (vfindi_None_iff _ _ _) Hfind j) as Hno.
    rewrite Nat.add_0_l in Hno.
    apply andb_false_iff in Hno as [Hf|Hf]; apply bool_decide_eq_false in Hf;
      done || lia.
Qed.

Lemma svc_fork_unfold (c : ctx_t) (k : kernel) e n :
  executing k = Some e →
  currentProcesses k < Z.of_nat MAX_PROCS →
  fork_slot k = Some n →
  svc_fork c k =
    (let k0 := set_currentProcesses (currentProcesses k + 1) (PL011_putc "F" k) in
     let E := fork_entry c n (fin_to_Z n) k0 in
     let S := fork_stack n e E in
     m ← memcpy (mem S) (sp (ctx (procTab S !!! n))) (sp c) (stack_height e E);
     k1 ← fin_for MAX_FDS (fork_fd_step n) (fork_stamp n e m S);
     Some (set_gpr0 (pid (procTab k1 !!! n)) c,
           upd_pcb n (λ p, set_ctx (set_gpr0 0 (ctx p)) p) k1)).
Proof.
  intros He Hcp Hn. unfold fork_slot in Hn.
  pose proof (proj1 (index_Some _ _ _) Hn) as HiNew.
  cbv beta zeta delta [svc_fork].
  change (currentProcesses (PL011_putc "F" k)) with (currentProcesses k).
  rewrite decide_False by lia.
  change (find_terminated (set_currentProcesses _ _)) with (find_terminated k).
  rewrite <- HiNew in Hn |- *. rewrite Hn. cbn [mbind option_bind].
  change (executing (upd_pcb n (set_ctx c) _)) with (executing k).
  rewrite He. cbn [mbind option_bind]. reflexivity.
Qed.

Lemma fork_entry_frame (c : ctx_t) n iNew (k0 : kernel) :
  currentProcesses (fork_entry c n iNew k0) = currentProcesses k0
  ∧ time (fork_entry c n iNew k0) = time k0
  ∧ openFileTab (fork_entry c n iNew k0) = openFileTab k0
  ∧ executing (fork_entry c n iNew k0) = executing k0
  ∧ heap (fork_entry c n iNew k0) = heap k0
  ∧ mem (fork_entry c n iNew k0) = mem k0
  ∧ uart (fork_entry c n iNew k0) = uart k0.
Proof. done. Qed.

Lemma fork_entry_child (c : ctx_t) n iNew (k0 : kernel) :
  procTab (fork_entry c n iNew k0) !!! n
  = set_ctx c (set_tos (tos_p - (iNew - 1) * 8192)
                 (set_status STATUS_READY (set_pid iNew pcb_zero))).
Proof. unfold fork_entry. cbn zeta. by rewrite !procTab_upd_pcb_eq. Qed.

Lemma fork_entry_others (c : ctx_t) n iNew (k0 : kernel) j :
  j ≠ n → procTab (fork_entry c n iNew k0) !!! j = procTab k0 !!! j.
Proof.
  intros Hj. unfold fork_entry. cbn zeta.
  by rewrite !procTab_upd_pcb_ne by done.
Qed.

Lemma stack_height_entry (c : ctx_t) n e (k0 : kernel) :
  stack_height e (fork_entry c n (fin_to_Z n) k0)
  = if decide (n = e) then u32 (child_tos n - sp c)
    else u32 (tos (procTab k0 !!! e) - sp (ctx (procTab k0 !!! e))).
Proof.
  unfold stack_height. case_decide as Hne.
  - subst e. by rewrite fork_entry_child.
  - by rewrite fork_entry_others.
Qed.

Lemma fork_stack_frame n e (k0 : kernel) :
  currentProcesses (fork_stack n e k0) = currentProcesses k0
  ∧ time (fork_stack n e k0) = time k0
  ∧ openFileTab (fork_stack n e k0) = openFileTab k0
  ∧ executing (fork_stack n e k0) = executing k0
  ∧ heap (fork_stack n e k0) = heap k0
  ∧ mem (fork_stack n e k0) = mem k0
  ∧ uart (fork_stack n e k0) = uart k0.
Proof. done. Qed.

Lemma fork_stamp_frame n e m (k0 : kernel) :
  currentProcesses (fork_stamp n e m k0) = currentProcesses k0
  ∧ time (fork_stamp n e m k0) = time k0
  ∧ openFileTab (fork_stamp n e m k0) = openFileTab k0
  ∧ executing (fork_stamp n e m k0) = executing k0
  ∧ heap (fork_stamp n e m k0) = heap k0
  ∧ mem (fork_stamp n e m k0) = m
  ∧ uart (fork_stamp n e m k0) = uart k0.
Proof. done. Qed.

Lemma fork_stamp_child n e m (k0 : kernel) :
  procTab (fork_stamp n e m k0) !!! n
  = set_niceness
      (if decide (n = e) then niceness (procTab k0 !!! n)
       else niceness (procTab k0 !!! e))
      (set_lastExec (time k0) (procTab k0 !!! n)).
Proof.
  unfold fork_stamp. cbn zeta. rewrite !procTab_upd_pcb_eq.
  cbn [time set_mem procTab]. f_equal. case_decide as Hne.
  - subst e. by rewrite procTab_upd_pcb_eq.
  - by rewrite procTab_upd_pcb_ne.
Qed.

Lemma fork_stamp_others n e m (k0 : kernel) j :
  j ≠ n → procTab (fork_stamp n e m k0) !!! j = procTab k0 !!! j.
Proof.
  intros Hj. unfold fork_stamp. cbn zeta.
  by rewrite !procTab_upd_pcb_ne by done.
Qed.

(** What a fork below the limit does when the copy of the stack is
    defined. *)
Lemma fork_spec (c : ctx_t) (k : kernel) (e n : fin MAX_PROCS) :
  executing k = Some e →
  currentProcesses k < Z.of_nat MAX_PROCS →
  fork_slot k = Some n →
  (∀ i, fdTab (procTab k !!! e) !!! i < Z.of_nat MAX_FDS) →
  fork_copy_ok c k e n →
  ∃ k', hilevel_handler_svc c 3 k = Some (set_gpr0 (fin_to_Z n) c, k')
    ∧ currentProcesses k' = currentProcesses k + 1
    ∧ executing k' = executing k
    ∧ time k' = time k
    ∧ heap k' = heap k
    ∧ uart k' = uart k +:+ "F"
    ∧ memcpy (mem k) (child_sp c k e n) (sp c) (fork_height c k e n)
      = Some (mem k')
    ∧ (∀ j, j ≠ n → procTab k' !!! j = procTab k !!! j)
    ∧ pid (procTab k' !!! n) = fin_to_Z n
    ∧ status (procTab k' !!! n) = STATUS_READY
    ∧ tos (procTab k' !!! n) = child_tos n
    ∧ lastExec (procTab k' !!! n) = u32 (time k)
    ∧ ctx (procTab k' !!! n)
      = set_gpr0 0 (set_sp (child_tos n - fork_height c k e n) c)
    ∧ (n ≠ e →
       fdTab (procTab k' !!! n) = fdTab (procTab k !!! e)
       ∧ niceness (procTab k' !!! n) = niceness (procTab k !!! e)
       ∧ ∀ j, file (openFileTab k' !!! j) = file (openFileTab k !!! j)
            ∧ flag (openFileTab k' !!! j) = flag (openFileTab k !!! j)
            ∧ refCount (openFileTab k' !!! j)
              = refCount (openFileTab k !!! j)
                + count_fd (fin_to_Z j)
                    (vec_to_list (fdTab (procTab k !!! e)))).
Proof.
  intros He Hcp Hn Hfds Hcopy. cbn [hilevel_handler_svc].
  rewrite (svc_fork_unfold c k e n He Hcp Hn). cbv zeta.
  set (k0 := set_currentProcesses (currentProcesses k + 1) (PL011_putc "F" k)).
  set (E := fork_entry c n (fin_to_Z n) k0).
  set (S := fork_stack n e E).
  assert (stack_height e E = fork_height c k e n) as Hh.
  { unfold E. by rewrite stack_height_entry. }
  assert (procTab E !!! n
          = set_ctx c (set_tos (tos_p - (fin_to_Z n - 1) * 8192)
                         (set_status STATUS_READY
                            (set_pid (fin_to_Z n) pcb_zero)))) as HEn.
  { unfold E. apply fork_entry_child. }
  assert (procTab S !!! n
          = set_ctx (set_sp (child_tos n - fork_height c k e n) c)
              (procTab E !!! n)) as HSn.
  { unfold S, fork_stack. rewrite procTab_upd_pcb_eq, Hh, HEn. done. }
  assert (∀ j, j ≠ n → procTab S !!! j = procTab k !!! j) as HSo.
  { intros j Hj. unfold S, fork_stack. rewrite procTab_upd_pcb_ne by done.
    unfold E. by rewrite fork_entry_others. }
  assert (sp (ctx (procTab S !!! n)) = child_sp c k e n) as Hsp.
  { by rewrite HSn. }
  rewrite Hsp, Hh. change (mem S) with (mem k).
  unfold fork_copy_ok in Hcopy. unfold memcpy at 1.
  rewrite decide_True by done. cbn [mbind option_bind].
  match goal with |- context [fork_stamp n e ?m0 S] => set (m := m0) end.
  set (Z := fork_stamp n e m S).
  assert (executing Z = Some e) as HZe by exact He.
  assert (procTab Z !!! n
          = set_niceness
              (if decide (n = e) then 0 else niceness (procTab k !!! e))
              (set_lastExec (time k) (procTab S !!! n))) as HZn.
  { unfold Z. rewrite fork_stamp_child. change (time S) with (time k).
    f_equal. case_decide as Hne; [|by rewrite HSo].
    by rewrite HSn, HEn. }
  assert (∀ j, j ≠ n → procTab Z !!! j = procTab k !!! j) as HZo.
  { intros j Hj. unfold Z. rewrite fork_stamp_others by done. by apply HSo. }
  assert (∀ i, fdTab (procTab Z !!! e) !!! i < Z.of_nat MAX_FDS) as HZfds.
  { intros i. destruct (decide (e = n)) as [->|Hne].
    - rewrite HZn, HSn, HEn.
      cbn [fdTab set_niceness set_lastExec set_ctx set_tos set_status set_pid
           pcb_zero].
      rewrite vlookup_replicate. pose proof (fin_to_nat_lt i). lia.
    - rewrite HZo by done. apply Hfds. }
  destruct (fork_loop_shares Z e n HZe HZfds)
    as (k1 & -> & (Hex1 & Htm1 & Hmem1 & Huart1 & Hheap1 & Hcp1 & F & Hproc & HF)
        & Hsh).
  cbn [mbind option_bind].
  assert (procTab k1 !!! n = set_fdTab F (procTab Z !!! n)) as Hchild.
  { by rewrite Hproc, vlookup_insert. }
  assert (∀ j, j ≠ n → procTab k1 !!! j = procTab k !!! j) as Hothers.
  { intros j Hj. rewrite Hproc, vlookup_insert_ne by done. by apply HZo. }
  assert (pid (procTab k1 !!! n) = fin_to_Z n) as Hpid.
  { by rewrite Hchild, HZn, HSn, HEn. }
  rewrite Hpid.
  eexists. split; [reflexivity|].
  cbn [currentProcesses executing time heap uart mem upd_pcb set_procTab].
  rewrite Hcp1, Hex1, Htm1, Hheap1, Huart1, Hmem1.
  split; [done|]. split; [done|]. split; [done|]. split; [done|].
  split; [done|]. split.
  { unfold memcpy. by rewrite decide_True. }
  split.
  { intros j Hj. rewrite procTab_upd_pcb_ne by done. by apply Hothers. }
  rewrite procTab_upd_pcb_eq, Hchild, HZn, HSn, HEn.
  cbn [pid status tos lastExec ctx niceness fdTab
       set_fdTab set_niceness set_lastExec set_ctx set_tos set_status set_pid].
  split; [done|]. split; [done|]. split; [done|]. split; [done|].
  split; [done|].
  intros Hne. rewrite decide_False by done.
  split; [|split; [done|]].
  - apply vec_eq. intros l. rewrite HF.
    rewrite decide_True by apply fin_to_nat_lt. by rewrite HZo.
  - intros j. rewrite (HZo e) in Hsh by done. exact (Hsh j).
Qed.


End Fork.



(** [fork] reads the height of the stack from the entry of the caller, which
    holds the stack pointer saved at its last switch: a console that traps
    16 bytes below the top of its stack right after reset, its entry still
    recording the top, gets a child whose stack pointer is the top of the
    stack of the child. *)
Lemma fork_stale_height :
  ∃ k' : @kernel demo,
    hilevel_handler_svc (set_sp (0x70100000 - 16) (fst demo_booted)) 3
      (snd demo_booted)
    = Some (set_gpr0 1 (set_sp (0x70100000 - 16) (fst demo_booted)), k')
    ∧ sp (@ctx demo (procTab (snd demo_booted) !!! demo_slot0)) = 0x70100000
    ∧ @tos demo (procTab k' !!! demo_slot1) = 0x70200000
    ∧ sp (@ctx demo (procTab k' !!! demo_slot1)) = 0x70200000.
Proof.
  assert (observe (λ c' k', (c', @tos demo (procTab k' !!! demo_slot1),
                             sp (@ctx demo (procTab k' !!! demo_slot1))))
            (hilevel_handler_svc (set_sp (0x70100000 - 16) (fst demo_booted)) 3
               (snd demo_booted))
          = Some (set_gpr0 1 (set_sp (0x70100000 - 16) (fst demo_booted)),
                  0x70200000, 0x70200000)) as Hrun.
  { by vm_compute. }
  destruct (hilevel_handler_svc _ _ _) as [[c' k']|]; [|discriminate Hrun].
  injection Hrun as -> Htos Hsp. exists k'. split; [reflexivity|].
  split; [by vm_compute|]. split; [exact Htos|exact Hsp].
Qed.

(** ** Pipes *)

Section Pipes.
Context `{P : Platform}.

(** Residues of numbers close to the modulus. *)
Lemma mod_near x C :
  0 < C → - C ≤ x < 2 * C →
  x mod C = if decide (x < 0) then x + C
            else if decide (x < C) then x else x - C.
Proof.
  intros HC Hx. repeat case_decide.
  - symmetry. apply Z.mod_unique with (-1); lia.
  - apply Z.mod_small. lia.
  - symmetry. apply Z.mod_unique with 1; lia.
Qed.

Lemma rem_mod_nonneg x C : 0 ≤ x → 0 < C → Z.rem x C = x mod C.
Proof. intros. apply Z.rem_mod_nonneg; lia. Qed.

Lemma new_pipe_holds : (0 < BUFFER_SIZE)%nat → pipe_holds new_pipe [].
Proof.
  intros HC. unfold pipe_holds, pipe_count, new_pipe. simpl.
  repeat split; try lia; try done.
Qed.

Lemma pipe_holds_full p q :
  pipe_holds p q → (pipe_full p = true ↔ length q = BUFFER_SIZE).
Proof.
  intros (Hsz & Hf & Hr & Hfull & Hcnt & _). unfold pipe_count in Hcnt.
  destruct (pipe_full p).
  - split; [lia|done].
  - pose proof (Z.mod_pos_bound (pipe_rear p + 1 - pipe_front p) (pipe_size p)).
    split; [done|lia].
Qed.

Lemma pipe_holds_length p q : pipe_holds p q → (length q ≤ BUFFER_SIZE)%nat.
Proof.
  intros (Hsz & Hf & Hr & Hfull & Hcnt & _). unfold pipe_count in Hcnt.
  destruct (pipe_full p); [lia|].
  pose proof (Z.mod_pos_bound (pipe_rear p + 1 - pipe_front p) (pipe_size p)).
  lia.
Qed.

Lemma buffer_at_insert p p' r b z :
  pipe_buffer p' = vinsert r b (pipe_buffer p) →
  buffer_at p' z = if decide (z = fin_to_Z r) then b else buffer_at p z.
Proof.
  intros Hbuf. unfold buffer_at. rewrite Hbuf. destruct (index BUFFER_SIZE z) as [f|] eqn:Hf.
  - apply index_Some in Hf. case_decide as Hz.
    + assert (f = r) as -> by (apply fin_to_Z_inj; congruence).
      by rewrite vlookup_insert.
    + rewrite vlookup_insert_ne; [done|]. intros ->. done.
  - rewrite decide_False; [done|]. intros ->. by rewrite index_fin in Hf.
Qed.

(** One iteration of the loop of [write] on a pipe that is not full
    appends the byte to the queue. *)
Lemma write_step_holds p q b :
  pipe_holds p q →
  pipe_full p = false →
  let rear := Z.rem (pipe_rear p + 1) (pipe_size p) in
  ∃ r, index BUFFER_SIZE rear = Some r
    ∧ pipe_holds
        {| pipe_front := pipe_front p; pipe_rear := rear;
           pipe_size := pipe_size p;
           pipe_full := bool_decide (pipe_front p = Z.rem (rear + 1) (pipe_size p));
           pipe_buffer := vinsert r b (pipe_buffer p) |}
        (q ++ [b]).
Proof.
  intros (Hsz & Hf & Hr & Hfull & Hcnt & Hq) Hnf rear.
  unfold pipe_count in Hcnt. rewrite Hnf in Hcnt.
  set (C := pipe_size p) in *. set (f := pipe_front p) in *.
  set (r0 := pipe_rear p) in *.
  assert (0 < C) as HC by lia.
  assert (rear = (r0 + 1) mod C) as Hrear by (apply rem_mod_nonneg; lia).
  assert (0 ≤ rear < C) as Hrr by (rewrite Hrear; apply Z.mod_pos_bound; lia).
  destruct (index_in_range BUFFER_SIZE rear) as [r Hidx]; [lia|].
  exists r. split; [done|].
  rewrite (rem_mod_nonneg (rear + 1)) by lia.
  rewrite (mod_near (r0 + 1)) in Hrear by lia.
  rewrite (mod_near (r0 + 1 - f)) in Hcnt by lia.
  unfold pipe_holds, pipe_count. cbn [pipe_size pipe_front pipe_rear pipe_full].
  fold C f. rewrite length_app. cbn [length].
  split; [done|]. split; [done|]. split; [lia|].
  split; [by intros ?%bool_decide_eq_true|].
  split.
  - rewrite (mod_near (rear + 1)) by lia.
    case_bool_decide as Hfl.
    + revert Hfl Hcnt Hrear. repeat case_decide; lia.
    + rewrite (mod_near (rear + 1 - f)) by lia.
      revert Hfl Hcnt Hrear. repeat case_decide; lia.
  - intros j b' Hj. rewrite (buffer_at_insert p _ r b) by done.
    apply index_Some in Hidx. rewrite Hidx.
    pose proof (lookup_lt_Some _ _ _ Hj) as Hjlt.
    rewrite length_app in Hjlt. cbn [length] in Hjlt.
    assert (Z.of_nat (length q) < C) as Hlen.
    { revert Hcnt. repeat case_decide; lia. }
    rewrite (mod_near (f + Z.of_nat j)) by lia.
    destruct (decide (j = length q)) as [->|Hne].
    + rewrite lookup_app_r, Nat.sub_diag in Hj by lia. simplify_eq/=.
      rewrite decide_True; [done|].
      revert Hcnt Hrear. repeat case_decide; lia.
    + rewrite lookup_app_l in Hj by lia.
      rewrite decide_False by (revert Hcnt Hrear; repeat case_decide; lia).
      rewrite <- (Hq j b' Hj).
      by rewrite (mod_near (f + Z.of_nat j)) by lia.
Qed.

(** One iteration of the loop of [read] on a pipe that holds [b :: q]
    takes [b] from the buffer and leaves [q]. *)
Lemma read_step_holds p b q :
  pipe_holds p (b :: q) →
  bool_decide (pipe_front p = Z.rem (pipe_rear p + 1) (pipe_size p))
    && negb (pipe_full p) = false
  ∧ ∃ f, index BUFFER_SIZE (pipe_front p) = Some f
    ∧ pipe_buffer p !!! f = b
    ∧ pipe_holds
        {| pipe_front := Z.rem (pipe_front p + 1) (pipe_size p);
           pipe_rear := pipe_rear p; pipe_size := pipe_size p;
           pipe_full := false; pipe_buffer := pipe_buffer p |} q.
Proof.
  intros (Hsz & Hf & Hr & Hfull & Hcnt & Hq).
  unfold pipe_count in Hcnt. cbn [length] in Hcnt.
  set (C := pipe_size p) in *. set (f := pipe_front p) in *.
  set (r0 := pipe_rear p) in *.
  assert (0 < C) as HC by lia.
  rewrite (rem_mod_nonneg (r0 + 1)) by lia.
  rewrite (rem_mod_nonneg (f + 1)) by lia.
  rewrite (mod_near (r0 + 1)) in Hfull |- * by lia.
  rewrite (mod_near (r0 + 1 - f)) in Hcnt by lia.
  assert (Z.of_nat (length q) < C) as Hlen.
  { revert Hcnt. destruct (pipe_full p); repeat case_decide; lia. }
  split.
  { destruct (pipe_full p); [by rewrite andb_false_r|].
    rewrite andb_true_r. apply bool_decide_eq_false.
    revert Hcnt. repeat case_decide; lia. }
  destruct (index_in_range BUFFER_SIZE f) as [fi Hfi]; [lia|].
  exists fi. split; [done|]. split.
  { specialize (Hq 0%nat b eq_refl). fold f C in Hq.
    rewrite Z.add_0_r, Z.mod_small in Hq by lia.
    unfold buffer_at in Hq. by rewrite Hfi in Hq. }
  unfold pipe_holds, pipe_count. cbn [pipe_size pipe_front pipe_rear pipe_full].
  fold C r0. rewrite (mod_near (f + 1)) by lia.
  split; [done|]. split; [repeat case_decide; lia|]. split; [done|].
  split; [done|]. split.
  - destruct (pipe_full p) eqn:Hfl.
    + specialize (Hfull eq_refl).
      rewrite mod_near by (repeat case_decide; lia).
      revert Hfull. repeat case_decide; lia.
    + rewrite mod_near by (repeat case_decide; lia).
      revert Hcnt. repeat case_decide; lia.
  - intros j b' Hj. pose proof (lookup_lt_Some _ _ _ Hj) as Hjlt.
    rewrite <- (Hq (S j) b' Hj). fold f C.
    match goal with |- buffer_at _ (?a mod C) = _ =>
      assert (a mod C = (f + Z.of_nat (S j)) mod C) as ->; [|done] end.
    rewrite (mod_near (f + Z.of_nat (S j))) by lia.
    rewrite mod_near by (repeat case_decide; lia).
    repeat case_decide; lia.
Qed.

Lemma bytes_at_S m x n : bytes_at m x (S n) = m x :: bytes_at m (x + 1) n.
Proof.
  unfold bytes_at. cbn [seq fmap list_fmap]. rewrite Z.add_0_r. f_equal.
  rewrite <- fmap_S_seq, <- list_fmap_compose.
  apply list_fmap_ext. intros _ j _. simpl. f_equal. lia.
Qed.

Lemma length_bytes_at m x n : length (bytes_at m x n) = n.
Proof. unfold bytes_at. by rewrite length_fmap, length_seq. Qed.

Lemma lookup_bytes_at m x n j :
  (j < n)%nat → bytes_at m x n !! j = Some (m (x + Z.of_nat j)).
Proof.
  intros Hj. unfold bytes_at. rewrite list_lookup_fmap, lookup_seq_lt by done.
  done.
Qed.

(** [write] of [todo] bytes into free space appends them all. *)
Lemma write_loop_holds m todo x i p q :
  pipe_holds p q →
  (length q + todo ≤ BUFFER_SIZE)%nat →
  ∃ p', write_loop m todo x i p = Some (i + Z.of_nat todo, p')
        ∧ pipe_holds p' (q ++ bytes_at m x todo).
Proof.
  revert x i p q. induction todo as [|todo IH]; intros x i p q Hp Hlen.
  - exists p. cbn [write_loop]. rewrite Z.add_0_r.
    unfold bytes_at. simpl. by rewrite app_nil_r.
  - assert (pipe_full p = false) as Hnf.
    { destruct (pipe_full p) eqn:Hfl; [|done].
      apply (pipe_holds_full p q Hp) in Hfl. lia. }
    cbn [write_loop]. rewrite Hnf.
    destruct (write_step_holds p q (m x) Hp Hnf) as (r & Hr & Hp1).
    rewrite Hr. cbn [mbind option_bind].
    cbn [pipe_front pipe_rear pipe_size pipe_full pipe_buffer].
    match goal with |- context [write_loop _ _ _ _ ?p1] =>
      destruct (IH (x + 1) (i + 1) p1 (q ++ [m x])) as (p' & Hrun & Hp')
    end.
    + case_decide as Hd.
      * by rewrite bool_decide_eq_true_2 in Hp1.
      * by rewrite bool_decide_eq_false_2 in Hp1.
    + rewrite length_app. simpl. lia.
    + exists p'. split.
      * rewrite Hrun. do 2 f_equal. lia.
      * by rewrite bytes_at_S, cons_middle, app_assoc.
Qed.

(** [write] on a full pipe stores nothing. *)
Lemma write_loop_full m todo x i p :
  pipe_full p = true → write_loop m todo x i p = Some (i, p).
Proof. intros Hfull. destruct todo; [done|]. cbn [write_loop]. by rewrite Hfull. Qed.

(** [read] of the first [todo] bytes of the queue copies them to the user
    buffer at [x + i] and leaves the rest in the pipe. *)
Lemma read_loop_holds q1 x i m p q2 :
  pipe_holds p (q1 ++ q2) →
  ∃ m' p', read_loop (length q1) x i m p
           = Some (i + Z.of_nat (length q1), m', p')
    ∧ pipe_holds p' q2
    ∧ (∀ (j : nat) b, q1 !! j = Some b → m' (x + i + Z.of_nat j) = b)
    ∧ (∀ a, ¬ (x + i ≤ a < x + i + Z.of_nat (length q1)) → m' a = m a).
Proof.
  revert i m p. induction q1 as [|b q1 IH]; intros i m p Hp.
  - exists m, p. cbn [read_loop length]. rewrite Z.add_0_r.
    split; [done|]. split; [done|]. split; [|done]. intros j b Hj. done.
  - destruct (read_step_holds p b (q1 ++ q2) Hp) as (Hne & f & Hf & Hb & Hp1).
    cbn [read_loop length]. rewrite Hne, Hf. cbn [mbind option_bind].
    cbn [pipe_front pipe_rear pipe_size pipe_full pipe_buffer].
    match goal with |- context [read_loop _ _ _ ?m1 ?p1] =>
      destruct (IH (i + 1) m1 p1) as (m' & p' & Hrun & Hp' & Hm' & Hframe)
    end.
    + by destruct (pipe_full p).
    + exists m', p'. split; [|split; [done|split]].
      * rewrite Hrun. do 3 f_equal. lia.
      * intros [|j] b' Hj.
        -- simpl in Hj. simplify_eq. rewrite Hframe by lia.
           unfold store. rewrite Z.add_0_r, Z.eqb_refl. done.
        -- simpl in Hj. rewrite <- (Hm' j b' Hj). f_equal. lia.
      * intros a Ha. rewrite Hframe by lia. unfold store.
        destruct (Z.eqb_spec a (x + i)); [lia|done].
Qed.

Lemma set_heap_id (k : kernel) : set_heap (heap k) k = k.
Proof. by destruct k. Qed.

Lemma svc_write_pipe (c : ctx_t) (k : kernel) i a p :
  3 ≤ s32 (gpr0 c) →
  index MAX_FDS (s32 (gpr0 c)) = Some i →
  file (openFileTab k !!! i) = Some a →
  heap k !! a = Some p →
  hilevel_handler_svc c 1 k
  = '(n, p') ← write_loop (mem k) (Z.to_nat (s32 (gpr2 c))) (gpr1 c) 0 p;
    Some (set_gpr0 n c, set_heap (<[a := p']> (heap k)) k).
Proof.
  intros Hfd Hi Ha Hp. cbn [hilevel_handler_svc]. unfold svc_write.
  rewrite !decide_False by lia.
  unfold pipe_of_fd. rewrite Hi. cbn [mbind option_bind].
  rewrite Ha. cbn [mbind option_bind]. rewrite Hp. cbn [mbind option_bind].
  by destruct (write_loop _ _ _ _ _) as [[n p']|].
Qed.

Lemma svc_read_pipe (c : ctx_t) (k : kernel) i a p :
  3 ≤ s32 (gpr0 c) →
  index MAX_FDS (s32 (gpr0 c)) = Some i →
  file (openFileTab k !!! i) = Some a →
  heap k !! a = Some p →
  hilevel_handler_svc c 2 k
  = '(n, m, p') ← read_loop (Z.to_nat (s32 (gpr2 c))) (gpr1 c) 0 (mem k) p;
    Some (set_gpr0 n c, set_mem m (set_heap (<[a := p']> (heap k)) k)).
Proof.
  intros Hfd Hi Ha Hp. cbn [hilevel_handler_svc]. unfold svc_read.
  rewrite !decide_False by lia.
  unfold pipe_of_fd. rewrite Hi. cbn [mbind option_bind].
  rewrite Ha. cbn [mbind option_bind]. rewrite Hp. cbn [mbind option_bind].
  by destruct (read_loop _ _ _ _ _) as [[[n m] p']|].
Qed.

(** C6: a write of [BUFFER_SIZE] bytes through a descriptor of an empty
    pipe returns [BUFFER_SIZE] and leaves the pipe full, holding the bytes
    of the user buffer; any write of one byte or more that follows returns 0
    and leaves the kernel state, hence the buffer, [front], [rear] and
    [full] of the pipe, as it is. *)
Theorem pipe_fill (c : ctx_t) (k : kernel) i a p :
  Z.of_nat BUFFER_SIZE < 2 ^ 31 →
  3 ≤ s32 (gpr0 c) →
  index MAX_FDS (s32 (gpr0 c)) = Some i →
  file (openFileTab k !!! i) = Some a →
  heap k !! a = Some p →
  pipe_holds p [] →
  s32 (gpr2 c) = Z.of_nat BUFFER_SIZE →
  ∃ k1 p1,
    hilevel_handler_svc c 1 k = Some (set_gpr0 (Z.of_nat BUFFER_SIZE) c, k1)
    ∧ s32 (gpr0 (set_gpr0 (Z.of_nat BUFFER_SIZE) c)) = Z.of_nat BUFFER_SIZE
    ∧ heap k1 !! a = Some p1
    ∧ pipe_full p1 = true
    ∧ pipe_holds p1 (bytes_at (mem k) (gpr1 c) BUFFER_SIZE)
    ∧ ∀ c2, s32 (gpr0 c2) = s32 (gpr0 c) → 1 ≤ s32 (gpr2 c2) →
        hilevel_handler_svc c2 1 k1 = Some (set_gpr0 0 c2, k1).
Proof.
  intros HC Hfd Hi Ha Hp Hempty Hn.
  destruct (write_loop_holds (mem k) BUFFER_SIZE (gpr1 c) 0 p [] Hempty)
    as (p1 & Hrun & Hp1); [simpl; lia|].
  rewrite (svc_write_pipe c k i a p) by done.
  rewrite Hn, Nat2Z.id, Hrun. cbn [mbind option_bind]. rewrite Z.add_0_l.
  cbn [app] in Hp1.
  assert (pipe_full p1 = true) as Hfull.
  { apply (pipe_holds_full p1 _ Hp1). apply length_bytes_at. }
  eexists _, p1. split; [done|].
  split; [rewrite gpr0_set_gpr0; apply s32_u32; lia|].
  kfields. split; [by rewrite lookup_insert_eq|].
  split; [done|]. split; [done|].
  intros c2 Hfd2 Hn2.
  rewrite (svc_write_pipe c2 _ i a p1); kfields.
  - rewrite write_loop_full by done. cbn [mbind option_bind].
    rewrite insert_insert_eq. done.
  - by rewrite Hfd2.
  - by rewrite Hfd2.
  - done.
  - by rewrite lookup_insert_eq.
Qed.

End Pipes.

Lemma pipe_fill_witness :
  ∃ k1 : @kernel demo,
    hilevel_handler_svc (with_args 4 2000 4 (fst demo_piped)) 1 (snd demo_piped)
    = Some (set_gpr0 4 (with_args 4 2000 4 (fst demo_piped)), k1).
Proof.
  destruct (@pipe_fill demo (with_args 4 2000 4 (fst demo_piped))
              (snd demo_piped) demo_fd4 1%positive new_pipe)
    as (k1 & p1 & Hk1 & _).
  - by vm_compute.
  - by vm_compute.
  - by vm_compute.
  - by vm_compute.
  - by vm_compute.
  - apply new_pipe_holds. simpl. lia.
  - by vm_compute.
  - exists k1. exact Hk1.
Defined.

(** ** Integers in user memory *)

Lemma Z_of_byte_of_Z z : Z_of_byte (byte_of_Z z) = z mod 256.
Proof.
  unfold Z_of_byte, byte_of_Z.
  pose proof (Z.mod_pos_bound z 256 eq_refl) as Hz.
  destruct (Byte.of_N (Z.to_N (z mod 256))) as [b|] eqn:Hb.
  - apply Byte.to_of_N in Hb. simpl. rewrite Hb. lia.
  - apply Byte.of_N_None_iff in Hb. lia.
Qed.

Lemma bytes_of_int v :
  v mod 256 + ((v ≫ 8) mod 256) ≪ 8 + ((v ≫ 16) mod 256) ≪ 16
  + ((v ≫ 24) mod 256) ≪ 24 = u32 v.
Proof.
  unfold u32. rewrite !Z.shiftl_mul_pow2, !Z.shiftr_div_pow2 by lia.
  change (2 ^ 8) with 256. change (2 ^ 16) with (256 * 256).
  change (2 ^ 24) with (256 * 256 * 256). change (2 ^ 32) with 4294967296.
  rewrite <- !Z.div_div by lia.
  Z.div_mod_to_equations. lia.
Qed.

Ltac eqb_cases :=
  repeat match goal with
  | |- context [?x =? ?y] => destruct (Z.eqb_spec x y); try lia
  end.

Lemma load_store_int m a v :
  - 2 ^ 31 ≤ v < 2 ^ 31 → load_int (store_int m a v) a = v.
Proof.
  intros Hv. unfold load_int, store_int, store. eqb_cases.
  rewrite !Z_of_byte_of_Z, bytes_of_int. by apply s32_u32.
Qed.

Lemma load_store_int_other m a b v :
  ¬ (a - 4 < b < a + 4) → load_int (store_int m a v) b = load_int m b.
Proof. intros Hb. unfold load_int, store_int, store. by eqb_cases. Qed.

(** ** Creating a pipe *)

Section PipeCreate.
Context `{P : Platform}.

Lemma vfindi_Some {A n} (Q : nat → A → bool) lo (v : vec A n) i :
  vfindi Q lo v = Some i → Q (lo + fin_to_nat i)%nat (v !!! i) = true.
Proof.
  revert lo i. induction v as [|x n v IH]; intros lo i; [done|].
  cbn [vfindi]. destruct (Q lo x) eqn:Hx.
  - intros [= <-]. simpl. by rewrite Nat.add_0_r.
  - destruct (vfindi Q (S lo) v) as [j|] eqn:Hj; [|done].
    intros [= <-]. simpl. apply IH in Hj.
    by rewrite Nat.add_succ_r.
Qed.

(** An [open_fd] that returns a descriptor took a free entry from index 3
    on and made it refer to the pipe. *)
Lemma open_fd_success p flg (k : kernel) fd k' :
  open_fd p flg k = Some (fd, k') →
  fd ≠ -1 →
  ∃ i, fd = fin_to_Z i
    ∧ 3 ≤ fd
    ∧ refCount (openFileTab k !!! i) = 0
    ∧ openFileTab k' =
        vinsert i {| file := p; flag := flg; refCount := 1 |} (openFileTab k)
    ∧ heap k' = heap k
    ∧ mem k' = mem k.
Proof.
  unfold open_fd. intros Hopen Hfd.
  destruct (vfindi _ 0 (openFileTab k)) as [i|] eqn:Hi; [|by simplify_eq].
  apply vfindi_Some in Hi. apply andb_true_iff in Hi as [Hi3 Hfree].
  apply bool_decide_eq_true in Hi3, Hfree.
  kfields in Hopen.
  destruct (executing k) as [e|]; [|done]. cbn [mbind option_bind] in Hopen.
  injection Hopen as <- <-. exists i.
  split; [done|]. split; [unfold fin_to_Z; lia|]. split; [done|].
  destruct (vfindi _ 0 (fdTab _)); kfields; rewrite openFileTab_upd_fd;
    cbn [file flag refCount]; rewrite Hfree; done.
Qed.

(** A successful [pipe] allocates one pipe, empty, and makes two distinct
    open file entries refer to it; their indices are what it stores at the
    user address in [r0]. *)
Lemma svc_pipe_success (c c1 : ctx_t) (k k1 : kernel) :
  svc_pipe c k = Some (c1, k1) →
  gpr0 c1 = 0 →
  ∃ a ir iw,
    c1 = set_gpr0 0 c
    ∧ 3 ≤ fin_to_Z ir ∧ 3 ≤ fin_to_Z iw
    ∧ file (openFileTab k1 !!! ir) = Some a
    ∧ file (openFileTab k1 !!! iw) = Some a
    ∧ heap k1 !! a = Some new_pipe
    ∧ mem k1 = store_int (store_int (mem k) (gpr0 c) (fin_to_Z ir))
                 (gpr0 c + 4) (fin_to_Z iw).
Proof.
  unfold svc_pipe, malloc. intros Hrun Hok.
  set (a := fresh (dom (heap k))) in *.
  destruct (open_fd (Some a) RDONLY _) as [[fr kr]|] eqn:Hr; [|done].
  cbn [mbind option_bind] in Hrun.
  destruct (open_fd (Some a) WRONLY kr) as [[fw kw]|] eqn:Hw; [|done].
  cbn [mbind option_bind] in Hrun.
  case_decide as Hfail.
  { (* the failure branch returns -1 *)
    apply bind_Some in Hrun as (e & _ & Hrun).
    apply bind_Some in Hrun as (k2 & _ & Hrun).
    apply bind_Some in Hrun as (k3 & _ & Hrun).
    injection Hrun as <- <-. rewrite gpr0_set_gpr0 in Hok.
    vm_compute in Hok. discriminate Hok. }
  injection Hrun as <- <-.
  apply open_fd_success in Hr as (ir & -> & Hir & _ & Htabr & Hheapr & Hmemr);
    [|tauto].
  apply open_fd_success in Hw as (iw & -> & Hiw & Hfreew & Htabw & Hheapw & Hmemw);
    [|tauto].
  exists a, ir, iw. kfields. rewrite Htabw, Htabr, Hheapw, Hheapr, Hmemw, Hmemr.
  kfields.
  assert (ir ≠ iw) as Hne.
  { intros ->. rewrite Htabr, vlookup_insert in Hfreew. done. }
  split; [done|]. split; [done|]. split; [done|].
  split; [by rewrite vlookup_insert_ne, vlookup_insert|].
  split; [by rewrite vlookup_insert|].
  split; [by rewrite lookup_insert_eq|]. done.
Qed.


End PipeCreate.

Lemma some_after (x : option (ctx_t * @kernel demo)) :
  (if x is Some _ then true else false) = true →
  x = Some (fst (after x), snd (after x)).
Proof. by destruct x as [[??]|]. Qed.


(** ** Scheduler *)

Section Scheduler.
Context `{P : Platform}.

Lemma aging_score_nonneg t p : 0 ≤ aging_score t p.
Proof. unfold aging_score. apply u32_range. Qed.

Lemma sched_inv_start (k : kernel) e :
  sched_inv k e 0 (niceness (procTab k !!! e) - 1, pid (procTab k !!! e)).
Proof. left. split; [done|]. intros m Hm. lia. Qed.

Lemma fin_lt_S {n} (m i : fin n) :
  (fin_to_nat m < S (fin_to_nat i))%nat →
  (fin_to_nat m < fin_to_nat i)%nat ∨ m = i.
Proof.
  intros Hm. destruct (decide (m = i)) as [|Hne]; [by right|]. left.
  assert (fin_to_nat m ≠ fin_to_nat i) by (intros ?%(inj fin_to_nat); done).
  lia.
Qed.

Lemma sched_inv_step (k : kernel) e (i : fin MAX_PROCS) acc :
  (ready k i → score k i < 2 ^ 31) →
  sched_inv k e (fin_to_nat i) acc →
  ∃ acc', schedule_step k i acc = Some acc'
          ∧ sched_inv k e (S (fin_to_nat i)) acc'.
Proof.
  intros Hfit Hinv. destruct acc as [hp next]. unfold schedule_step.
  fold (score k i).
  destruct (decide (status (procTab k !!! i) = STATUS_READY)) as [Hready|Hnr].
  2:{ (* not ready: the pair is unchanged *)
    exists (hp, next). split; [done|].
    destruct Hinv as [[Hacc Hlow]|(m & Hm & Hrm & Hacc & Hb & Hmax)].
    - left. split; [done|]. intros m [Hm| ->]%fin_lt_S Hrm; [by apply Hlow|done].
    - right. exists m. split; [lia|]. split; [done|]. split; [done|].
      split; [done|]. intros m' [Hm'| ->]%fin_lt_S Hrm'; [by apply Hmax|done]. }
  pose proof (aging_score_nonneg (time k) (procTab k !!! i)) as Hnonneg.
  fold (score k i) in Hnonneg. specialize (Hfit Hready).
  destruct (decide (hp ≤ score k i)) as [Hge|Hlt].
  - (* the entry takes over *)
    unfold d2i. rewrite decide_True by lia. cbn [mbind option_bind].
    eexists. split; [done|]. right. exists i.
    split; [lia|]. split; [done|]. split; [done|].
    destruct Hinv as [[Hacc Hlow]|(m & Hm & Hrm & Hacc & Hb & Hmax)];
      simplify_eq.
    + split; [done|]. intros m' [Hm'| ->]%fin_lt_S Hrm'.
      * specialize (Hlow m' Hm' Hrm'). split; lia.
      * split; lia.
    + split; [lia|]. intros m' [Hm'| ->]%fin_lt_S Hrm'.
      * destruct (Hmax m' Hm' Hrm') as [Hle _]. split; lia.
      * split; lia.
  - (* the entry stays behind *)
    exists (hp, next). split; [done|].
    destruct Hinv as [[Hacc Hlow]|(m & Hm & Hrm & Hacc & Hb & Hmax)];
      simplify_eq.
    + left. split; [done|]. intros m [Hm| ->]%fin_lt_S Hrm; [by apply Hlow|lia].
    + right. exists m. split; [lia|]. split; [done|]. split; [done|].
      split; [done|]. intros m' [Hm'| ->]%fin_lt_S Hrm'; [by apply Hmax|].
      split; [lia|]. intros _. lia.
Qed.

(** The loop of [schedule] is defined when the scores of the ready entries
    fit an [int], and ends in the state that [sched_inv] describes. *)
Lemma schedule_select_spec (k : kernel) e :
  (∀ i, ready k i → score k i < 2 ^ 31) →
  ∃ acc, schedule_select k e = Some acc ∧ sched_inv k e MAX_PROCS acc.
Proof.
  intros Hfit. unfold schedule_select.
  apply (fin_for_rule (sched_inv k e)).
  - apply sched_inv_start.
  - intros i acc Hinv. apply sched_inv_step; [apply Hfit|done].
Qed.

Lemma status_upd_pcb i f (k : kernel) j :
  (∀ p, status (f p) = status p) →
  status (procTab (upd_pcb i f k) !!! j) = status (procTab k !!! j).
Proof.
  intros Hf. rewrite procTab_upd_pcb. destruct (decide (i = j)) as [->|Hne].
  - by rewrite vlookup_insert.
  - by rewrite vlookup_insert_ne.
Qed.

Lemma status_upd_pcb_set i s (k : kernel) j :
  status (procTab (upd_pcb i (set_status s) k) !!! j)
  = if decide (j = i) then s else status (procTab k !!! j).
Proof.
  rewrite procTab_upd_pcb. case_decide as Hj.
  - subst j. by rewrite vlookup_insert.
  - by rewrite vlookup_insert_ne.
Qed.

(** What [schedule] does once the loop has chosen [nextIndex]. *)
Lemma schedule_result (c : ctx_t) (k : kernel) e hp nextIndex next prev :
  executing k = Some e →
  schedule_select k e = Some (hp, nextIndex) →
  index MAX_PROCS nextIndex = Some next →
  index MAX_PROCS (pid (procTab k !!! e)) = Some prev →
  ∃ c' k', schedule c k = Some (c', k')
    ∧ executing k' = Some next
    ∧ status (procTab k' !!! next) = STATUS_EXECUTING
    ∧ currentProcesses k' = currentProcesses k
    ∧ (∀ j, j ≠ next →
         status (procTab k' !!! j)
         = if decide (j = prev ∧ status (procTab k !!! prev) = STATUS_EXECUTING)
           then STATUS_READY else status (procTab k !!! j)).
Proof.
  intros He Hsel Hnext Hprev. unfold schedule.
  rewrite He. cbn [mbind option_bind]. rewrite Hsel. cbn [mbind option_bind].
  rewrite Hnext. cbn [mbind option_bind]. unfold dispatch.
  rewrite Hprev. cbn [mbind option_bind].
  eexists _, _. split; [done|].
  cbn [set_time procTab executing currentProcesses].
  match goal with |- context [upd_pcb prev (set_lastExec ?tm) ?st] =>
    set (k2 := st); set (t := time k2)
  end.
  assert (∀ j, status (procTab k2 !!! j) = status (procTab k !!! j)) as Hst.
  { intros j. unfold k2. kfields. rewrite status_upd_pcb by done. by kfields. }
  assert (executing k2 = Some next) as Hex by (unfold k2; by kfields).
  assert (currentProcesses k2 = currentProcesses k) as Hcp
    by (unfold k2; by kfields).
  clearbody t. clearbody k2.
  rewrite (status_upd_pcb prev (set_lastExec t)) by done. rewrite Hst.
  split; [by case_decide|]. split; [by rewrite procTab_upd_pcb_eq|].
  split; [by case_decide|].
  intros j Hj. rewrite status_upd_pcb_set, decide_False by done.
  destruct (decide (status (procTab k !!! prev) = STATUS_EXECUTING)) as [Hpe|Hpe].
  - rewrite status_upd_pcb_set.
    rewrite (status_upd_pcb prev (set_lastExec t)) by done. rewrite Hst.
    repeat case_decide; try done; tauto.
  - rewrite (status_upd_pcb prev (set_lastExec t)) by done. rewrite Hst.
    rewrite decide_False by tauto. done.
Qed.

(** C2, amended: among the ready entries whose score is maximal and
    reaches the bound [executing->niceness - 1], the scheduler dispatches
    the one of highest index, the comparison [ipriority >= highestPriority]
    letting a later entry of equal score replace an earlier one. *)
Theorem schedule_ties (c : ctx_t) (k : kernel) e prev j :
  executing k = Some e →
  index MAX_PROCS (pid (procTab k !!! e)) = Some prev →
  (∀ i, ready k i → score k i < 2 ^ 31) →
  ready k j →
  niceness (procTab k !!! e) - 1 ≤ score k j →
  (∀ i, ready k i → score k i ≤ score k j) →
  (∀ i, ready k i → (fin_to_nat j < fin_to_nat i)%nat → score k i < score k j) →
  ∃ c' k', schedule c k = Some (c', k')
    ∧ executing k' = Some j
    ∧ status (procTab k' !!! j) = STATUS_EXECUTING.
Proof.
  intros He Hprev Hfit Hj Hbound Hmax Hlast.
  destruct (schedule_select_spec k e Hfit) as ([hp nextIndex] & Hsel & Hinv).
  assert (nextIndex = fin_to_Z j) as ->.
  { destruct Hinv as [[Hacc Hlow]|(m & Hm & Hrm & Hacc & Hb & Hmaxm)].
    - specialize (Hlow j (fin_to_nat_lt j) Hj). lia.
    - simplify_eq. do 2 f_equal.
      destruct (Hmaxm j (fin_to_nat_lt j) Hj) as [Hle Hlt].
      specialize (Hmax m Hrm). specialize (Hlast m Hrm).
      apply (inj fin_to_nat).
      destruct (Nat.lt_trichotomy (fin_to_nat m) (fin_to_nat j)) as [?|[?|?]];
        [|done|]; lia. }
  destruct (schedule_result c k e hp (fin_to_Z j) j prev He Hsel (index_fin _ j) Hprev)
    as (c' & k' & Hrun & Hex & Hst & _).
  by exists c', k'.
Qed.


End Scheduler.

Lemma schedule_ties_witness :
  ∃ c' (k' : @kernel demo),
    hilevel_handler_svc (fst demo_tied) 0 (snd demo_tied) = Some (c', k')
    ∧ executing k' = Some demo_slot2.
Proof.
  destruct (@schedule_ties demo (fst demo_tied) (snd demo_tied)
              demo_slot0 demo_slot0 demo_slot2)
    as (c' & k' & Hrun & Hex & _).
  - by_eval.
  - by_eval.
  - apply (demo_slots (λ i, ready (snd demo_tied) i
                            → score (snd demo_tied) i < 2 ^ 31));
      intros Hr; by_eval_under Hr.
  - by_eval.
  - by_eval.
  - apply (demo_slots (λ i, ready (snd demo_tied) i
                            → score (snd demo_tied) i
                              ≤ score (snd demo_tied) demo_slot2));
      intros Hr; by_eval_under Hr.
  - apply (demo_slots (λ i, ready (snd demo_tied) i
                            → (fin_to_nat demo_slot2 < fin_to_nat i)%nat
                            → score (snd demo_tied) i
                              < score (snd demo_tied) demo_slot2));
      intros Hr Hlt; vm_compute in Hr; try discriminate Hr;
      vm_compute in Hlt; lia.
  - exists c', k'. cbn [hilevel_handler_svc]. split; [exact Hrun|exact Hex].
Defined.

(** C2 as stated fails: with the console executing and its two children
    ready with the same score 0, above the bound -1, a yield dispatches
    entry 2, not the lowest-indexed entry 1. *)
Lemma schedule_ties_not_lowest :
  ∃ c' (k' : @kernel demo),
    hilevel_handler_svc (fst demo_tied) 0 (snd demo_tied) = Some (c', k')
    ∧ executing (snd demo_tied) = Some demo_slot0
    ∧ @niceness demo (procTab (snd demo_tied) !!! demo_slot0) - 1 = -1
    ∧ ¬ ready (snd demo_tied) demo_slot0
    ∧ ready (snd demo_tied) demo_slot1
    ∧ ready (snd demo_tied) demo_slot2
    ∧ ¬ ready (snd demo_tied) demo_slot3
    ∧ score (snd demo_tied) demo_slot1 = 0
    ∧ score (snd demo_tied) demo_slot2 = 0
    ∧ executing k' = Some demo_slot2
    ∧ executing k' ≠ Some demo_slot1.
Proof.
  assert (observe (λ _ k', executing k')
            (hilevel_handler_svc (fst demo_tied) 0 (snd demo_tied))
          = Some (Some demo_slot2)) as Hrun by (by vm_compute).
  destruct (hilevel_handler_svc _ _ _) as [[c' k']|]; [|done].
  injection Hrun as Hex. exists c', k'. split; [reflexivity|].
  repeat (split; [by_eval|]). split; [exact Hex|].
  intros Heq. assert (Some demo_slot2 = Some demo_slot1) as Habs; [|done].
  etrans; [symmetry; exact Hex|exact Heq].
Qed.



